(** * Terminusa: the transactional economy core of the terminal game

    A shallow embedding of the game's single source file: the SQLite-backed
    [DatabaseManager], the in-memory [Player] object with its inventory
    dictionary, and the [Game] operations that mine, trade, handle a defeat
    and unlock achievements, together with loading a player, registration,
    login and the battle loop.  The menus, the read-only listing views and
    the creation of the schema are left out.

    Conventions of the embedding.
    - Python integers and SQLite INTEGER columns are [Z].
    - A Python [dict] is a [gmap]; a table with a PRIMARY KEY is a [gmap] from
      the key to the remaining columns, except [player_achievements], kept as
      the list of its rows so that rows can be counted.  The static
      [achievements] catalog is left out: SQLite does not enforce the
      REFERENCES clauses, and no modelled operation reads it.
    - The program has one [sqlite3] connection (the [DatabaseManager]
      singleton).  The connection is a pair of databases: what has been
      committed ([durable]) and what the connection currently sees ([view]).
      [commit] copies the view into the durable state, [rollback] the other
      way round.  Every durable state that a commit replaces is kept in
      [history], newest first, so that the states a crash could leave behind
      can be named.
    - Effects are threaded through a state-and-exception monad [M] over the
      [World]: the connection, the logged-in [Player] object, what was
      printed, and the environment (clock, random source, storage failures).
      An exception leaves the world as it was when it was raised.
    - [cursor.execute] may raise [sqlite3.OperationalError] when the storage
      fails; the environment decides through [faults], one entry per executed
      statement ([true]: that statement raises).  An empty list is a healthy
      storage. *)

From stdpp Require Import gmap strings list fin_maps pretty.

#[local] Open Scope string_scope.
#[local] Open Scope Z_scope.

(** ** Data model *)

(** A row of table [players], keyed by [username]; the columns carry the
    prefix [row_] to keep them apart from the attributes of [Player]. *)
Record PlayerRow := {
  row_password_hash : string;
  row_level : Z;
  row_tac_balance : Z;
  row_health : Z
}.

(** A row of table [marketplace], keyed by [listing_id]. *)
Record Listing := {
  seller : string;
  item_name : string;
  price : Z;
  quantity : Z;
  listed_at : Z
}.

(** A row of table [player_achievements]: player, achievement, unlock time. *)
Record Unlock := {
  player_id : string;
  achievement_id : Z;
  unlocked_at : Z
}.

Record DB := {
  players : gmap string PlayerRow;
  inventory : gmap (string * string) Z;
  marketplace : gmap Z Listing;
  player_achievements : list Unlock
}.

Record Conn := {
  view : DB;
  durable : DB;
  history : list DB
}.

(** The [Player] object: attributes set by [__init__] and [load]; [inv] is
    the attribute [inventory] (the name belongs to the table). *)
Record Player := {
  username : string;
  password_hash : string;
  level : Z;
  tac_balance : Z;
  health : Z;
  inv : gmap string Z
}.

Record World := {
  conn : Conn;
  current_player : option Player;
  stdout : list string;
  clock : Z;
  entropy : list Z;
  faults : list bool
}.

#[global] Instance PlayerRow_eq_dec : EqDecision PlayerRow.
Proof. solve_decision. Defined.
#[global] Instance Listing_eq_dec : EqDecision Listing.
Proof. solve_decision. Defined.
#[global] Instance Unlock_eq_dec : EqDecision Unlock.
Proof. solve_decision. Defined.

(** ** Exceptions and the monad *)

Inductive exn :=
| AttributeError (attr : string)
| KeyError (key : string)
| ValueError (msg : string)
| IntegrityError (msg : string)
| OperationalError (msg : string).

(** [str(e)] *)
Definition exn_str (e : exn) : string :=
  match e with
  | AttributeError attr => "'NoneType' object has no attribute '" ++ attr ++ "'"
  | KeyError key => "'" ++ key ++ "'"
  | ValueError msg => msg
  | IntegrityError msg => msg
  | OperationalError msg => msg
  end.

Inductive outcome (A : Type) :=
| Ok (a : A)
| Raise (e : exn).
Arguments Ok {A} a.
Arguments Raise {A} e.

Definition M (A : Type) : Type := World → outcome A * World.

Definition ret {A} (a : A) : M A := λ w, (Ok a, w).

Definition bind {A B} (m : M A) (k : A → M B) : M B :=
  λ w, match m w with
       | (Ok a, w') => k a w'
       | (Raise e, w') => (Raise e, w')
       end.

Definition raise {A} (e : exn) : M A := λ w, (Raise e, w).

(** [try: body except Exception as e: handler e] *)
Definition try_except {A} (body : M A) (handler : exn → M A) : M A :=
  λ w, match body w with
       | (Ok a, w') => (Ok a, w')
       | (Raise e, w') => handler e w'
       end.

Declare Scope py_scope.
Delimit Scope py_scope with py.
Notation "x <- m ;; k" := (bind m (λ x, k))
  (at level 100, m at next level, right associativity) : py_scope.
Notation "m ;; k" := (bind m (λ _, k))
  (at level 100, right associativity) : py_scope.
#[local] Open Scope py_scope.

(** [for x in xs: body x] *)
Fixpoint for_each {A} (xs : list A) (body : A → M unit) : M unit :=
  match xs with
  | [] => ret tt
  | x :: rest => body x ;; for_each rest body
  end.

(** ** World accessors *)

Definition with_conn (c : Conn) (w : World) : World :=
  {| conn := c; current_player := current_player w; stdout := stdout w;
     clock := clock w; entropy := entropy w; faults := faults w |}.

Definition with_player (p : option Player) (w : World) : World :=
  {| conn := conn w; current_player := p; stdout := stdout w;
     clock := clock w; entropy := entropy w; faults := faults w |}.

Definition with_stdout (out : list string) (w : World) : World :=
  {| conn := conn w; current_player := current_player w; stdout := out;
     clock := clock w; entropy := entropy w; faults := faults w |}.

Definition with_clock (t : Z) (w : World) : World :=
  {| conn := conn w; current_player := current_player w; stdout := stdout w;
     clock := t; entropy := entropy w; faults := faults w |}.

Definition with_entropy (r : list Z) (w : World) : World :=
  {| conn := conn w; current_player := current_player w; stdout := stdout w;
     clock := clock w; entropy := r; faults := faults w |}.

Definition with_faults (f : list bool) (w : World) : World :=
  {| conn := conn w; current_player := current_player w; stdout := stdout w;
     clock := clock w; entropy := entropy w; faults := f |}.

Definition with_view (d : DB) (c : Conn) : Conn :=
  {| view := d; durable := durable c; history := history c |}.

(** [print(line)] *)
Definition print (line : string) : M unit :=
  λ w, (Ok tt, with_stdout (stdout w ++ [line]) w).

(** [random.randint(a, b)]: the next raw value of the random source, folded
    into the closed interval (an exhausted source yields [a]). *)
Definition randint (a b : Z) : M Z :=
  λ w, match entropy w with
       | [] => (Ok a, w)
       | x :: rest => (Ok (a + x `mod` (b - a + 1)), with_entropy rest w)
       end.

(** Evaluating [self.current_player.attr]: [AttributeError] on [None]. *)
Definition the_player (attr : string) : M Player :=
  λ w, match current_player w with
       | Some p => (Ok p, w)
       | None => (Raise (AttributeError attr), w)
       end.

(** Assigning attributes of the object [self.current_player] refers to. *)
Definition update_player (f : Player → Player) : M unit :=
  λ w, (Ok tt, with_player (f <$> current_player w) w).

(** [self.current_player = player] *)
Definition set_current_player (player : Player) : M unit :=
  λ w, (Ok tt, with_player (Some player) w).

Definition set_password_hash (h : string) (p : Player) : Player :=
  {| username := username p; password_hash := h; level := level p;
     tac_balance := tac_balance p; health := health p; inv := inv p |}.

Definition set_level (l : Z) (p : Player) : Player :=
  {| username := username p; password_hash := password_hash p; level := l;
     tac_balance := tac_balance p; health := health p; inv := inv p |}.

Definition set_tac_balance (b : Z) (p : Player) : Player :=
  {| username := username p; password_hash := password_hash p;
     level := level p; tac_balance := b; health := health p; inv := inv p |}.

Definition set_health (h : Z) (p : Player) : Player :=
  {| username := username p; password_hash := password_hash p;
     level := level p; tac_balance := tac_balance p; health := h;
     inv := inv p |}.

Definition set_inv (d : gmap string Z) (p : Player) : Player :=
  {| username := username p; password_hash := password_hash p;
     level := level p; tac_balance := tac_balance p; health := health p;
     inv := d |}.

(** ** The connection *)

(** [conn.commit()] *)
Definition commit_conn (c : Conn) : Conn :=
  {| view := view c; durable := view c; history := durable c :: history c |}.

(** [conn.rollback()] *)
Definition rollback_conn (c : Conn) : Conn :=
  {| view := durable c; durable := durable c; history := history c |}.

Definition commit : M unit := λ w, (Ok tt, with_conn (commit_conn (conn w)) w).
Definition rollback : M unit := λ w, (Ok tt, with_conn (rollback_conn (conn w)) w).

(** One statement reaches the storage: the next entry of [faults] decides
    whether it raises. *)
Definition storage_step : M unit :=
  λ w, match faults w with
       | [] => (Ok tt, w)
       | false :: rest => (Ok tt, with_faults rest w)
       | true :: rest => (Raise (OperationalError "disk I/O error"), with_faults rest w)
       end.

(** [cursor.execute(stmt)] for a statement that writes: [stmt] gives the new
    contents, or the exception the statement raises. *)
Definition execute (stmt : DB → exn + DB) : M unit :=
  storage_step ;;
  λ w, match stmt (view (conn w)) with
       | inr d => (Ok tt, with_conn (with_view d (conn w)) w)
       | inl e => (Raise e, w)
       end.

(** [cursor.execute(SELECT ...)] followed by [fetchone()] / [fetchall()]. *)
Definition query {A} (sel : DB → A) : M A :=
  storage_step ;;
  λ w, (Ok (sel (view (conn w))), w).

(** ** SQL statements, as functions on the database *)

Definition set_players (m : gmap string PlayerRow) (d : DB) : DB :=
  {| players := m; inventory := inventory d; marketplace := marketplace d;
     player_achievements := player_achievements d |}.

Definition set_inventory (m : gmap (string * string) Z) (d : DB) : DB :=
  {| players := players d; inventory := m; marketplace := marketplace d;
     player_achievements := player_achievements d |}.

Definition set_marketplace (m : gmap Z Listing) (d : DB) : DB :=
  {| players := players d; inventory := inventory d; marketplace := m;
     player_achievements := player_achievements d |}.

Definition set_player_achievements (l : list Unlock) (d : DB) : DB :=
  {| players := players d; inventory := inventory d;
     marketplace := marketplace d; player_achievements := l |}.

(** The columns of a [Player] object that go into its [players] row. *)
Definition row_of (p : Player) : PlayerRow :=
  {| row_password_hash := password_hash p; row_level := level p;
     row_tac_balance := tac_balance p; row_health := health p |}.

(** [INSERT OR REPLACE INTO players (username, password_hash, level,
    tac_balance, health) VALUES (?, ?, ?, ?, ?)] *)
Definition sql_replace_player (p : Player) (d : DB) : exn + DB :=
  inr (set_players (<[username p := row_of p]> (players d)) d).

(** [SELECT * FROM players WHERE username = ?] *)
Definition sql_select_player (u : string) (d : DB) : option PlayerRow :=
  players d !! u.

(** [UPDATE players SET tac_balance = tac_balance + ? WHERE username = ?] *)
Definition credit_row (amount : Z) (r : PlayerRow) : PlayerRow :=
  {| row_password_hash := row_password_hash r; row_level := row_level r;
     row_tac_balance := row_tac_balance r + amount;
     row_health := row_health r |}.

Definition sql_credit_player (amount : Z) (u : string) (d : DB) : exn + DB :=
  inr (set_players (alter (credit_row amount) u (players d)) d).

(** [DELETE FROM inventory WHERE player_id = ?] *)
Definition sql_delete_inventory (u : string) (d : DB) : exn + DB :=
  inr (set_inventory (filter (λ kv, kv.1.1 ≠ u) (inventory d)) d).

(** [INSERT INTO inventory (player_id, item_name, quantity) VALUES (?, ?, ?)]:
    the PRIMARY KEY (player_id, item_name) refuses a second row. *)
Definition sql_insert_inventory (u item : string) (q : Z) (d : DB) : exn + DB :=
  match inventory d !! (u, item) with
  | Some _ =>
      inl (IntegrityError
             "UNIQUE constraint failed: inventory.player_id, inventory.item_name")
  | None => inr (set_inventory (<[(u, item) := q]> (inventory d)) d)
  end.

(** [SELECT seller, item_name, price, quantity FROM marketplace
    WHERE listing_id = ?], then [fetchone()] *)
Definition sql_select_listing (listing_id : Z) (d : DB) : option Listing :=
  marketplace d !! listing_id.

(** [DELETE FROM marketplace WHERE listing_id = ?] *)
Definition sql_delete_listing (listing_id : Z) (d : DB) : exn + DB :=
  inr (set_marketplace (delete listing_id (marketplace d)) d).

(** The rowid SQLite gives a new [marketplace] row: one more than the
    largest in use, 1 in an empty table. *)
Definition max_listing_id (m : gmap Z Listing) : option Z :=
  map_fold (λ k _ acc, Some (from_option (Z.max k) k acc)) None m.

Definition next_listing_id (m : gmap Z Listing) : Z :=
  from_option (λ k, k + 1) 1 (max_listing_id m).

(** [INSERT INTO marketplace (seller, item_name, price, quantity)
    VALUES (?, ?, ?, ?)]; [listed_at] defaults to CURRENT_TIMESTAMP. *)
Definition sql_insert_listing (s item : string) (pr q now : Z) (d : DB) : exn + DB :=
  inr (set_marketplace
         (<[next_listing_id (marketplace d) :=
              {| seller := s; item_name := item; price := pr; quantity := q;
                 listed_at := now |}]> (marketplace d)) d).

(** Does the row belong to this (player, achievement) pair? *)
Definition unlock_of (u : string) (aid : Z) (r : Unlock) : bool :=
  bool_decide (player_id r = u ∧ achievement_id r = aid).

(** [INSERT OR IGNORE INTO player_achievements VALUES (?, ?,
    CURRENT_TIMESTAMP)]: a row with the same PRIMARY KEY (player_id,
    achievement_id) makes the statement do nothing. *)
Definition sql_insert_or_ignore_unlock (u : string) (aid now : Z) (d : DB) : exn + DB :=
  inr (if existsb (unlock_of u aid) (player_achievements d) then d
       else set_player_achievements
              (player_achievements d ++
               [{| player_id := u; achievement_id := aid; unlocked_at := now |}]) d).

(** [SELECT item_name, quantity FROM inventory WHERE player_id = ?], then
    the dictionary [{row[0]: row[1] for row in cursor.fetchall()}] *)
Definition sql_select_inventory (u : string) (d : DB) : gmap string Z :=
  map_fold (λ k q acc, if decide (k.1 = u) then <[k.2 := q]> acc else acc)
           ∅ (inventory d).

(** CURRENT_TIMESTAMP, as SQLite evaluates it when the statement runs. *)
Definition current_timestamp : M Z := λ w, (Ok (clock w), w).

(** The newline that starts some of the printed lines. *)
Definition nl : string := String (Ascii.ascii_of_nat 10) EmptyString.

(** ** class DatabaseManager *)

Module DatabaseManager.

(** The context manager: the body runs on the shared connection, then the
    connection commits; an exception rolls the connection back and is
    raised again. *)
Definition transaction {A} (body : M A) : M A :=
  try_except
    (a <- body ;; commit ;; ret a)
    (λ e, rollback ;; raise e).

Definition get_player (u : string) : M (option PlayerRow) :=
  transaction (query (sql_select_player u)).

Definition save_player (player : Player) : M unit :=
  transaction (execute (sql_replace_player player)).

End DatabaseManager.

(** ** class Player

    The methods run on the object [self.current_player] refers to, the only
    [Player] object the modelled operations touch; [self] reads it. *)

Module Player.

Definition self : M Player := the_player "self".

Definition save_inventory : M unit :=
  DatabaseManager.transaction
    (p <- self ;;
     execute (sql_delete_inventory (username p)) ;;
     p <- self ;;
     for_each (map_to_list (inv p))
       (λ kv, p <- self ;;
              execute (sql_insert_inventory (username p) kv.1 kv.2))).

Definition add_item (item_name : string) (quantity : Z) : M unit :=
  p <- self ;;
  update_player
    (set_inv (<[item_name := default 0 (inv p !! item_name) + quantity]> (inv p))) ;;
  save_inventory.

Definition remove_item (item_name : string) (quantity : Z) : M bool :=
  p <- self ;;
  if bool_decide (quantity ≤ default 0 (inv p !! item_name)) then
    (* self.inventory[item_name] -= quantity *)
    match inv p !! item_name with
    | None => raise (KeyError item_name)
    | Some held =>
        update_player (set_inv (<[item_name := held - quantity]> (inv p))) ;;
        p <- self ;;
        (if bool_decide (inv p !! item_name = Some 0)
         then update_player (set_inv (delete item_name (inv p)))
         else ret tt) ;;
        save_inventory ;;
        ret true
    end
  else ret false.

(** The traceback goes to stderr, which is not recorded. *)
Definition save : M unit :=
  try_except
    (p <- self ;;
     DatabaseManager.save_player p ;;
     save_inventory)
    (λ e, print ("Neural sync error: " ++ exn_str e)).

(** [bcrypt_checkpw] stands for [bcrypt.checkpw] on the encoded password and
    digest, a function of the bcrypt library: it answers, or raises
    ([ValueError] for a digest it cannot parse). *)
Definition check_password (bcrypt_checkpw : string → string → exn + bool)
    (p : Player) (password : string) : exn + bool :=
  match bcrypt_checkpw password (password_hash p) with
  | inr verdict => inr verdict
  | inl (ValueError _) => inr false
  | inl e => inl e
  end.

(** [bcrypt_hashpw] stands for
    [bcrypt.hashpw(password.encode(), bcrypt.gensalt()).decode()], the digest
    the bcrypt library returns for the password. *)
Definition _hash_password (bcrypt_hashpw : string → string) (password : string) : string :=
  bcrypt_hashpw password.

Definition _load_inventory (username : string) : M (gmap string Z) :=
  DatabaseManager.transaction (query (sql_select_inventory username)).

(** [Player(username, password)]; [password] is [None] by default, and an
    empty password counts as none. *)
Definition __init__ (bcrypt_hashpw : string → string)
    (username : string) (password : option string) : M Player :=
  let password_hash :=
    match password with
    | Some pw => if bool_decide (pw = "") then ""
                 else _hash_password bcrypt_hashpw pw
    | None => ""
    end in
  items <- _load_inventory username ;;
  ret {| username := username; password_hash := password_hash; level := 1;
         tac_balance := 100; health := 100; inv := items |}.

(** The class method [Player.load]. *)
Definition load (bcrypt_hashpw : string → string) (username : string) : M (option Player) :=
  try_except
    (player_data <- DatabaseManager.get_player username ;;
     match player_data with
     | Some row =>
         new_player <- __init__ bcrypt_hashpw username None ;;
         ret (Some (set_health (row_health row)
                      (set_tac_balance (row_tac_balance row)
                         (set_level (row_level row)
                            (set_password_hash (row_password_hash row)
                               new_player)))))
     | None => ret None
     end)
    (λ e, print ("Neural load error: " ++ exn_str e) ;; ret None).

End Player.

(** ** class Game

    Values typed at a prompt are parameters of the operation; prompts and the
    inventory listing that [create_listing] shows first are not recorded in
    [stdout]. *)

Module Game.

Definition check_achievements (achievement_ids : list Z) : M unit :=
  DatabaseManager.transaction
    (for_each achievement_ids
       (λ aid, p <- the_player "username" ;;
               now <- current_timestamp ;;
               execute (sql_insert_or_ignore_unlock (username p) aid now))).

Definition explore : M unit :=
  try_except
    (print (nl ++ "Accessing quantum compute node...") ;;
     reward <- randint 10 50 ;;
     p <- the_player "tac_balance" ;;
     update_player (set_tac_balance (tac_balance p + reward)) ;;
     the_player "add_item" ;;
     Player.add_item "TAC" reward ;;
     print ("Decrypted " ++ pretty reward ++ " TAC from quantum matrix!") ;;
     the_player "save" ;;
     Player.save ;;
     if bool_decide (0 < reward) then check_achievements [1] else ret tt)
    (λ e, print ("Quantum mining error: " ++ exn_str e)).

Definition handle_defeat : M unit :=
  p <- the_player "tac_balance" ;;
  let penalty := Z.min 50 (tac_balance p) in
  update_player (set_tac_balance (tac_balance p - penalty)) ;;
  update_player (set_health 100) ;;
  the_player "save" ;;
  Player.save ;;
  print ("System reboot complete. TAC penalty: " ++ pretty penalty).

Definition purchase_listing (listing_id : Z) : M unit :=
  DatabaseManager.transaction
    (listing <- query (sql_select_listing listing_id) ;;
     match listing with
     | None => print "Quantum anomaly detected: Invalid ID"
     | Some l =>
         let total_cost := price l * quantity l in
         p <- the_player "tac_balance" ;;
         if bool_decide (tac_balance p < total_cost) then
           print "Insufficient TAC reserves"
         else
           update_player (set_tac_balance (tac_balance p - total_cost)) ;;
           execute (sql_credit_player total_cost (seller l)) ;;
           Player.add_item (item_name l) (quantity l) ;;
           execute (sql_delete_listing listing_id) ;;
           check_achievements [3] ;;
           print "Quantum transfer complete!"
     end).

Definition create_listing (item_name : string) (quantity price : Z) : M unit :=
  print (nl ++ "Neural Inventory:") ;;
  p <- the_player "inventory" ;;
  match inv p !! item_name with
  | None => print "Inventory anomaly detected"
  | Some available =>
      if bool_decide (available < quantity) then
        print "Resource deficit detected"
      else
        DatabaseManager.transaction
          (p <- the_player "username" ;;
           now <- current_timestamp ;;
           execute (sql_insert_listing (username p) item_name price quantity now)) ;;
        Player.remove_item item_name quantity ;;
        print "Quantum contract established!"
  end.

Definition validate_credentials (username password : string) : M bool :=
  if bool_decide (String.length username < 4)%nat then
    print "Neural handle must be at least 4 characters" ;; ret false
  else if bool_decide (String.length password < 8)%nat then
    print "Quantum key must be at least 8 characters" ;; ret false
  else ret true.

(** [username] and [password] are the stripped lines typed at the two
    prompts. *)
Definition login (bcrypt_hashpw : string → string)
    (bcrypt_checkpw : string → string → exn + bool)
    (username password : string) : M bool :=
  try_except
    (valid <- validate_credentials username password ;;
     if negb valid then ret false
     else
       player <- Player.load bcrypt_hashpw username ;;
       match player with
       | None => print "Neural pattern not found" ;; ret false
       | Some player =>
           match Player.check_password bcrypt_checkpw player password with
           | inl e => raise e
           | inr false => print "Invalid quantum signature" ;; ret false
           | inr true =>
               set_current_player player ;;
               print ("Welcome back, " ++ username ++ "!") ;;
               ret true
           end
       end)
    (λ e, print ("Authentication error: " ++ exn_str e) ;; ret false).

Definition register (bcrypt_hashpw : string → string)
    (username password : string) : M bool :=
  try_except
    (valid <- validate_credentials username password ;;
     if negb valid then ret false
     else
       existing <- Player.load bcrypt_hashpw username ;;
       match existing with
       | Some _ => print "Neural pattern already exists" ;; ret false
       | None =>
           new_player <- Player.__init__ bcrypt_hashpw username (Some password) ;;
           set_current_player new_player ;;
           Player.save ;;
           print "Neural imprint registered!" ;;
           ret true
       end)
    (λ e, print ("Registration error: " ++ exn_str e) ;; ret false).

(** The [while] loop of [battle].  [choices] are the commands typed so far
    (lower-cased and stripped); the result is [true] when the loop has
    ended and [false] when it stands at the prompt with no command left.
    [first_kill] is still [True] whenever the enemy falls, the loop ending
    there. *)
Fixpoint battle_loop (choices : list string) (enemy_health : Z) : M bool :=
  p <- the_player "health" ;;
  if bool_decide (0 < health p ∧ 0 < enemy_health) then
    print (nl ++ "System Integrity: " ++ pretty (health p)) ;;
    print ("Enemy Core Stability: " ++ pretty enemy_health) ;;
    match choices with
    | [] => ret false
    | choice :: rest =>
        if bool_decide (choice = "e") then
          damage <- randint 5 20 ;;
          print ("Dealt " ++ pretty damage ++ " quantum damage!") ;;
          if bool_decide (enemy_health - damage ≤ 0) then
            print "Threat neutralized! +50 TAC" ;;
            p <- the_player "tac_balance" ;;
            update_player (set_tac_balance (tac_balance p + 50)) ;;
            Player.add_item "TAC" 50 ;;
            Player.save ;;
            check_achievements [2] ;;
            ret true
          else
            enemy_damage <- randint 5 15 ;;
            p <- the_player "health" ;;
            update_player (set_health (health p - enemy_damage)) ;;
            print ("Goblin counterattack: " ++ pretty enemy_damage
                   ++ " system damage!") ;;
            p <- the_player "health" ;;
            if bool_decide (health p ≤ 0) then
              print "CRITICAL FAILURE: Neural link compromised!" ;;
              handle_defeat ;;
              ret true
            else battle_loop rest (enemy_health - damage)
        else if bool_decide (choice = "r") then
          print "Emergency retreat protocol engaged" ;; ret true
        else
          print "Invalid command sequence!" ;;
          battle_loop rest enemy_health
    end
  else ret true.

Definition battle (choices : list string) : M bool :=
  try_except
    (print (nl ++ "ALERT: Corrupted TAC Goblin detected!") ;;
     battle_loop choices 50)
    (λ e, print ("Combat simulation error: " ++ exn_str e) ;; ret true).

End Game.

(** ** Running a computation *)

Definition run {A} (m : M A) (w : World) : outcome A * World := m w.
Definition result {A} (m : M A) (w : World) : outcome A := (m w).1.
Definition exec {A} (m : M A) (w : World) : World := (m w).2.

(** ** A sample world: two registered players and one open listing *)

Definition alice : Player :=
  {| username := "alice"; password_hash := "$2b$12$alice"; level := 1;
     tac_balance := 100; health := 100; inv := ∅ |}.

Definition bob_row : PlayerRow :=
  {| row_password_hash := "$2b$12$bob"; row_level := 1; row_tac_balance := 20;
     row_health := 100 |}.

Definition core_listing : Listing :=
  {| seller := "bob"; item_name := "core"; price := 10; quantity := 5;
     listed_at := 0 |}.

Definition db0 : DB :=
  {| players := <["alice" := row_of alice]> (<["bob" := bob_row]> ∅);
     inventory := ∅;
     marketplace := <[1 := core_listing]> ∅;
     player_achievements := [] |}.

Definition world_of (d : DB) (p : Player) (f : list bool) : World :=
  {| conn := {| view := d; durable := d; history := [] |};
     current_player := Some p; stdout := []; clock := 1000; entropy := [];
     faults := f |}.

(** ** Observing a database *)

Definition stored_balance (d : DB) (u : string) : option Z :=
  row_tac_balance <$> players d !! u.


Definition stored_quantity (d : DB) (u item : string) : option Z :=
  inventory d !! (u, item).

Definition unlock_rows (d : DB) (u : string) (aid : Z) : list Unlock :=
  filter (λ r, unlock_of u aid r = true) (player_achievements d).

(** What [save_inventory] leaves in table [inventory]: the rows of the other
    players, and one row per entry of the dictionary. *)
Definition insert_items (u : string) (items : list (string * Z))
    (m : gmap (string * string) Z) : gmap (string * string) Z :=
  foldl (λ acc kv, <[(u, kv.1) := kv.2]> acc) m items.

Definition replace_inventory (u : string) (d : gmap string Z)
    (m : gmap (string * string) Z) : gmap (string * string) Z :=
  insert_items u (map_to_list d) (filter (λ kv, kv.1.1 ≠ u) m).

(** ** Vocabulary of the statements *)

(** The next statement sent to the storage does not fail. *)
Definition next_statement_succeeds (w : World) : Prop :=
  hd false (faults w) = false.

(** The database after a committed [save_inventory] of player [p]. *)
Definition inventory_saved (p : Player) (d : DB) : DB :=
  set_inventory (replace_inventory (username p) (inv p) (inventory d)) d.

(** The database after [save_player] of player [p]. *)
Definition player_saved (p : Player) (d : DB) : DB :=
  set_players (<[username p := row_of p]> (players d)) d.

(** Time passes between two calls: the environment moves the clock. *)
Definition advance_clock (t : Z) : M unit := λ w, (Ok tt, with_clock t w).

(** Unlock the same achievement once at each of the given times. *)
Fixpoint unlock_again (aid : Z) (times : list Z) : M unit :=
  match times with
  | [] => ret tt
  | t :: rest =>
      advance_clock t ;; Game.check_achievements [aid] ;; unlock_again aid rest
  end.

(** [explore] succeeded: the last line it printed is the reward line. *)
Definition mined (w : World) : Prop :=
  ∃ r : Z, last (stdout (exec Game.explore w)) =
             Some ("Decrypted " ++ pretty r ++ " TAC from quantum matrix!").

(** The row [check_achievements] adds when the pair has none yet. *)
Definition unlocked (u : string) (aid now : Z) (rows : list Unlock) : list Unlock :=
  if existsb (unlock_of u aid) rows then rows
  else rows ++ [{| player_id := u; achievement_id := aid; unlocked_at := now |}].

Inductive inv_op :=
| AddItem (item : string) (q : Z)
| RemoveItem (item : string) (q : Z).

Definition run_op (op : inv_op) : M unit :=
  match op with
  | AddItem item q => Player.add_item item q
  | RemoveItem item q => Player.remove_item item q ;; ret tt
  end.

Definition adds_positive (op : inv_op) : Prop :=
  match op with
  | AddItem _ q => 0 < q
  | RemoveItem _ _ => True
  end.

Definition positive_inventory (d : gmap string Z) : Prop :=
  ∀ item q, d !! item = Some q → 0 < q.

Definition stored_positive (d : DB) (u : string) : Prop :=
  ∀ item q, stored_quantity d u item = Some q → 0 < q.

(** The ledger invariant: player [u] is logged in, and the dictionary and
    the stored rows (seen and durable) hold positive quantities only. *)
Definition ledger_ok (u : string) (w : World) : Prop :=
  ∃ p, current_player w = Some p ∧ username p = u ∧
       positive_inventory (inv p) ∧
       stored_positive (view (conn w)) u ∧
       stored_positive (durable (conn w)) u.

(** The row [create_listing] inserts. *)
Definition new_listing (p : Player) (item : string) (qty pr now : Z) : Listing :=
  {| seller := username p; item_name := item; price := pr; quantity := qty;
     listed_at := now |}.

Definition listing_inserted (p : Player) (item : string) (qty pr now : Z) (d : DB) : DB :=
  set_marketplace
    (<[next_listing_id (marketplace d) := new_listing p item qty pr now]>
       (marketplace d)) d.

(** The dictionary after [remove_item] took [qty] from the [held] units. *)
Definition taken (item : string) (held qty : Z) (d : gmap string Z) : gmap string Z :=
  if bool_decide (held - qty = 0) then delete item d
  else <[item := held - qty]> d.

(** The scenario of the specification: nova holds 3 units of core. *)
Definition nova : Player :=
  {| username := "nova"; password_hash := "$2b$12$nova"; level := 1;
     tac_balance := 100; health := 100; inv := <["core" := 3]> ∅ |}.

Definition db_nova : DB :=
  {| players := <["nova" := row_of nova]> ∅;
     inventory := <[("nova", "core") := 3]> ∅;
     marketplace := ∅;
     player_achievements := [] |}.

(** A stand-in for the library: a digest must be 60 characters long. *)
Definition toy_checkpw (password digest : string) : exn + bool :=
  if bool_decide (String.length digest = 60%nat)
  then inr (bool_decide (digest = password))
  else inl (ValueError "Invalid salt").

(** ** Vocabulary of the further properties *)

(** The [Player] object [load] builds from a stored row. *)
Definition loaded (u : string) (row : PlayerRow) (d : DB) : Player :=
  {| username := u; password_hash := row_password_hash row;
     level := row_level row; tac_balance := row_tac_balance row;
     health := row_health row; inv := sql_select_inventory u d |}.

(** The [Player] object [register] creates. *)
Definition registered (bcrypt_hashpw : string → string)
    (u password : string) (d : DB) : Player :=
  {| username := u; password_hash := bcrypt_hashpw password; level := 1;
     tac_balance := 100; health := 100; inv := sql_select_inventory u d |}.

(** An empty store and an empty session. *)
Definition db_empty : DB :=
  {| players := ∅; inventory := ∅; marketplace := ∅;
     player_achievements := [] |}.

Definition world_logged_out (d : DB) (f : list bool) : World :=
  {| conn := {| view := d; durable := d; history := [] |};
     current_player := None; stdout := []; clock := 1000; entropy := [];
     faults := f |}.

(** Stand-ins for the library in the examples: the digest is the password
    after a fixed prefix, and verification compares. *)
Definition toy_hashpw (password : string) : string := "$2b$" ++ password.

Definition toy_verify (password digest : string) : exn + bool :=
  inr (bool_decide (digest = toy_hashpw password)).



(** The number of engage commands among the commands typed. *)
Definition engage_commands (choices : list string) : Z :=
  Z.of_nat (length (filter (λ choice, choice = "e") choices)).

(** What a battle can do to the player object: nothing but wear on health,
    the reward of a win, or the penalty of a defeat. *)
Definition battle_outcome (p p' : Player) : Prop :=
  username p' = username p ∧ password_hash p' = password_hash p ∧
  level p' = level p ∧
  ((tac_balance p' = tac_balance p ∧ inv p' = inv p ∧
    health p' ≤ health p ∧ (0 < health p → 0 < health p'))
   ∨ (tac_balance p' = tac_balance p + 50 ∧
      inv p' = <["TAC" := default 0 (inv p !! "TAC") + 50]> (inv p) ∧
      health p' ≤ health p ∧ (0 < health p → 0 < health p'))
   ∨ (tac_balance p' = tac_balance p - Z.min 50 (tac_balance p) ∧
      inv p' = inv p ∧ health p' = 100)).

(** ** Facts about the tables *)

Lemma lookup_insert_items u items : ∀ m u' i,
  NoDup items.*1 →
  insert_items u items m !! (u', i) =
    if decide (u' = u)
    then match (list_to_map items : gmap string Z) !! i with
         | Some q => Some q
         | None => m !! (u', i)
         end
    else m !! (u', i).
Proof.
  induction items as [|[j q] items IH]; intros m u' i Hnd; simpl.
  - by destruct (decide (u' = u)).
  - inversion Hnd as [|? ? Hj Hnd']; subst.
    rewrite IH by done.
    destruct (decide (u' = u)) as [->|Hne].
    + destruct (decide (i = j)) as [->|Hij].
      * rewrite lookup_insert_eq.
        rewrite (not_elem_of_list_to_map_1 items j) by done.
        by rewrite lookup_insert_eq.
      * rewrite (lookup_insert_ne (list_to_map items) j i) by done.
        rewrite lookup_insert_ne by congruence. done.
    + rewrite lookup_insert_ne by congruence. done.
Qed.

Lemma lookup_replace_inventory u d m u' i :
  replace_inventory u d m !! (u', i) =
    if decide (u' = u) then d !! i else m !! (u', i).
Proof.
  unfold replace_inventory.
  rewrite lookup_insert_items by apply NoDup_fst_map_to_list.
  rewrite list_to_map_to_list.
  destruct (decide (u' = u)) as [->|Hne].
  - destruct (d !! i) eqn:E; [done|].
    apply map_lookup_filter_None. right. intros x _. simpl. tauto.
  - destruct (m !! (u', i)) eqn:E.
    + apply map_lookup_filter_Some. simpl. split; [done|congruence].
    + apply map_lookup_filter_None. by left.
Qed.

Lemma max_listing_id_bound (m : gmap Z Listing) :
  (m = ∅ ∧ max_listing_id m = None) ∨
  (∃ k, max_listing_id m = Some k ∧ ∀ j, is_Some (m !! j) → j ≤ k).
Proof.
  unfold max_listing_id.
  apply (map_fold_weak_ind
           (λ r (m : gmap Z Listing),
              (m = ∅ ∧ r = None) ∨
              (∃ k, r = Some k ∧ ∀ j, is_Some (m !! j) → j ≤ k))).
  - by left.
  - intros i x m' r Hi [[-> ->]|[k [-> Hk]]]; right; simpl.
    + exists i. split; [done|]. intros j [y Hj].
      destruct (decide (j = i)) as [->|Hne]; [lia|].
      rewrite lookup_insert_ne in Hj by done. by rewrite lookup_empty in Hj.
    + exists (Z.max i k). split; [done|]. intros j [y Hj].
      destruct (decide (j = i)) as [->|Hne]; [lia|].
      rewrite lookup_insert_ne in Hj by done.
      specialize (Hk j (ex_intro _ y Hj)). lia.
Qed.

Lemma next_listing_id_fresh (m : gmap Z Listing) :
  m !! next_listing_id m = None.
Proof.
  unfold next_listing_id.
  destruct (max_listing_id_bound m) as [[-> ->]|[k [-> Hk]]]; simpl.
  - apply lookup_empty.
  - destruct (m !! (k + 1)) eqn:E; [|done].
    specialize (Hk (k + 1) (ex_intro _ _ E)). lia.
Qed.

(** ** One statement at a time

    What a statement, a loop of statements and a transaction do to the
    world, whatever the storage does next. *)

Lemma with_view_same (c : Conn) :
  with_view (set_inventory (inventory (view c)) (view c)) c = c.
Proof. by destruct c as [[] ? ?]. Qed.

Lemma execute_eq stmt c cp o t e f :
  execute stmt (Build_World c cp o t e f) =
  if hd false f
  then (Raise (OperationalError "disk I/O error"), Build_World c cp o t e (tl f))
  else match stmt (view c) with
       | inr d => (Ok tt, Build_World (with_view d c) cp o t e (tl f))
       | inl ex => (Raise ex, Build_World c cp o t e (tl f))
       end.
Proof. by destruct f as [|[] f]. Qed.

Lemma sql_insert_inventory_fresh u item q d :
  inventory d !! (u, item) = None →
  sql_insert_inventory u item q d =
    inr (set_inventory (<[(u, item) := q]> (inventory d)) d).
Proof. intros H. unfold sql_insert_inventory. by rewrite H. Qed.

Lemma for_each_insert_step p j q items c o t e f :
  for_each ((j, q) :: items)
    (λ kv, p' <- Player.self ;;
           execute (sql_insert_inventory (username p') kv.1 kv.2))
    (Build_World c (Some p) o t e f) =
  if hd false f
  then (Raise (OperationalError "disk I/O error"),
        Build_World c (Some p) o t e (tl f))
  else match sql_insert_inventory (username p) j q (view c) with
       | inr d =>
           for_each items
             (λ kv, p' <- Player.self ;;
                    execute (sql_insert_inventory (username p') kv.1 kv.2))
             (Build_World (with_view d c) (Some p) o t e (tl f))
       | inl ex => (Raise ex, Build_World c (Some p) o t e (tl f))
       end.
Proof.
  cbn [for_each]. unfold bind at 1. unfold bind at 1.
  change (Player.self (Build_World c (Some p) o t e f))
    with (@Ok Player p, Build_World c (Some p) o t e f).
  cbv beta iota. rewrite execute_eq. cbn [fst snd].
  destruct (hd false f); [reflexivity|].
  by destruct (sql_insert_inventory (username p) j q (view c)).
Qed.

Lemma save_inventory_unfold c p o t e f :
  Player.save_inventory (Build_World c (Some p) o t e f) =
  if hd false f
  then (Raise (OperationalError "disk I/O error"),
        Build_World (rollback_conn c) (Some p) o t e (tl f))
  else
    match
      for_each (map_to_list (inv p))
        (λ kv, p' <- Player.self ;;
               execute (sql_insert_inventory (username p') kv.1 kv.2))
        (Build_World
           (with_view
              (set_inventory
                 (filter (λ kv, kv.1.1 ≠ username p) (inventory (view c)))
                 (view c)) c) (Some p) o t e (tl f))
    with
    | (Ok _, w') => (Ok tt, with_conn (commit_conn (conn w')) w')
    | (Raise ex, w') => (Raise ex, with_conn (rollback_conn (conn w')) w')
    end.
Proof.
  unfold Player.save_inventory, DatabaseManager.transaction, try_except.
  unfold bind at 1. unfold bind at 1. unfold bind at 1.
  change (Player.self (Build_World c (Some p) o t e f))
    with (@Ok Player p, Build_World c (Some p) o t e f).
  cbv beta iota. unfold bind at 1. rewrite execute_eq.
  destruct (hd false f); [reflexivity|].
  cbn [sql_delete_inventory]. cbv beta iota. unfold bind at 1.
  match goal with
  | |- context [Player.self ?w] =>
      change (Player.self w) with (@Ok Player p, w)
  end.
  cbv beta iota. unfold bind.
  match goal with
  | |- context [for_each ?l ?b ?w] => destruct (for_each l b w) as [[[]|ex] w']
  end; reflexivity.
Qed.

#[local] Arguments Player.save_inventory : simpl never.
#[local] Arguments pretty : simpl never.

(** Reduce the monadic steps that compute; calls of [save_inventory] stay. *)
Ltac norm :=
  cbn;
  repeat (progress unfold bind, with_player, with_conn, with_stdout,
                          with_entropy, with_faults, with_clock;
          cbn).

Lemma save_player_eq p c cp o t e f :
  DatabaseManager.save_player p (Build_World c cp o t e f) =
  if hd false f
  then (Raise (OperationalError "disk I/O error"),
        Build_World (rollback_conn c) cp o t e (tl f))
  else (Ok tt,
        Build_World (commit_conn (with_view (player_saved p (view c)) c))
                    cp o t e (tl f)).
Proof. by destruct f as [|[] f]. Qed.

Lemma check_achievements_eq c p o t e f aid :
  Game.check_achievements [aid] (Build_World c (Some p) o t e f) =
  if hd false f
  then (Raise (OperationalError "disk I/O error"),
        Build_World (rollback_conn c) (Some p) o t e (tl f))
  else (Ok tt,
        Build_World
          (commit_conn
             (with_view
                (set_player_achievements
                   (unlocked (username p) aid t (player_achievements (view c)))
                   (view c)) c))
          (Some p) o t e (tl f)).
Proof.
  unfold unlocked.
  destruct f as [|[] f]; try reflexivity;
    unfold Game.check_achievements, DatabaseManager.transaction, try_except;
    norm; unfold sql_insert_or_ignore_unlock; norm;
    by destruct (existsb _ _); destruct c as [[] ? ?].
Qed.

(** ** Runs on a healthy storage *)

Lemma for_each_insert_run p items : ∀ c o t e,
  NoDup items.*1 →
  (∀ i, i ∈ items.*1 → inventory (view c) !! (username p, i) = None) →
  for_each items
    (λ kv, p' <- Player.self ;;
           execute (sql_insert_inventory (username p') kv.1 kv.2))
    (Build_World c (Some p) o t e []) =
  (Ok tt,
   Build_World
     (with_view
        (set_inventory (insert_items (username p) items (inventory (view c)))
                       (view c)) c)
     (Some p) o t e []).
Proof.
  induction items as [|[j q] items IH]; intros c o t e Hnd Hfresh.
  - simpl. unfold ret. by rewrite with_view_same.
  - inversion Hnd as [|? ? Hj Hnd']; subst.
    rewrite for_each_insert_step. cbn [hd tl].
    rewrite sql_insert_inventory_fresh by (apply Hfresh; simpl; left).
    rewrite IH; [done | done |].
    intros i Hi. simpl. rewrite lookup_insert_ne.
    + apply Hfresh. simpl. by right.
    + intros [= ->]. done.
Qed.

Lemma save_inventory_run c p o t e :
  Player.save_inventory (Build_World c (Some p) o t e []) =
  (Ok tt,
   Build_World (commit_conn (with_view (inventory_saved p (view c)) c))
               (Some p) o t e []).
Proof.
  rewrite save_inventory_unfold. cbn [hd tl].
  rewrite for_each_insert_run.
  - reflexivity.
  - apply NoDup_fst_map_to_list.
  - intros i _. simpl. apply map_lookup_filter_None. right.
    intros x _. simpl. tauto.
Qed.



(** Removing a non-positive quantity of an item that is not held passes the
    test on the quantity and fails on the subscript. *)
Lemma remove_item_missing c p o t e item q :
  inv p !! item = None →
  q ≤ 0 →
  Player.remove_item item q (Build_World c (Some p) o t e []) =
  (Raise (KeyError item), Build_World c (Some p) o t e []).
Proof.
  intros Hnone Hle. unfold Player.remove_item. cbn.
  rewrite Hnone. cbn. rewrite bool_decide_eq_true_2 by lia. reflexivity.
Qed.

Lemma check_achievements_run c p o t e aid :
  Game.check_achievements [aid] (Build_World c (Some p) o t e []) =
  (Ok tt,
   Build_World
     (commit_conn
        (with_view
           (if existsb (unlock_of (username p) aid) (player_achievements (view c))
            then view c
            else set_player_achievements
                   (player_achievements (view c) ++
                    [{| player_id := username p; achievement_id := aid;
                        unlocked_at := t |}]) (view c)) c))
     (Some p) o t e []).
Proof. reflexivity. Qed.

(** ** Runs on any storage

    [save_inventory] either commits the dictionary or raises after a
    rollback. *)

Lemma for_each_insert_any p items : ∀ c o t e f,
  NoDup items.*1 →
  (∀ i, i ∈ items.*1 → inventory (view c) !! (username p, i) = None) →
  ∃ f',
    for_each items
      (λ kv, p' <- Player.self ;;
             execute (sql_insert_inventory (username p') kv.1 kv.2))
      (Build_World c (Some p) o t e f) =
    (Ok tt,
     Build_World
       (with_view
          (set_inventory (insert_items (username p) items (inventory (view c)))
                         (view c)) c)
       (Some p) o t e f')
    ∨ ∃ ex m,
    for_each items
      (λ kv, p' <- Player.self ;;
             execute (sql_insert_inventory (username p') kv.1 kv.2))
      (Build_World c (Some p) o t e f) =
    (Raise ex,
     Build_World (with_view (set_inventory m (view c)) c) (Some p) o t e f').
Proof.
  induction items as [|[j q] items IH]; intros c o t e f Hnd Hfresh.
  - exists f. left. simpl. unfold ret. by rewrite with_view_same.
  - inversion Hnd as [|? ? Hj Hnd']; subst.
    rewrite for_each_insert_step.
    destruct (hd false f).
    + exists (tl f). right. exists (OperationalError "disk I/O error"),
        (inventory (view c)). by rewrite with_view_same.
    + rewrite sql_insert_inventory_fresh by (apply Hfresh; simpl; left).
      destruct (IH (with_view
                      (set_inventory (<[(username p, j):=q]> (inventory (view c)))
                         (view c)) c) o t e (tl f)) as (f' & [Hok|(ex & m & Hex)]).
      * done.
      * intros i Hi. simpl. rewrite lookup_insert_ne.
        -- apply Hfresh. simpl. by right.
        -- intros [= ->]. done.
      * exists f'. left. rewrite Hok. reflexivity.
      * exists f'. right. exists ex, m. rewrite Hex. reflexivity.
Qed.

Lemma save_inventory_any c p o t e f :
  ∃ f',
    Player.save_inventory (Build_World c (Some p) o t e f) =
    (Ok tt,
     Build_World (commit_conn (with_view (inventory_saved p (view c)) c))
                 (Some p) o t e f')
    ∨ ∃ ex,
    Player.save_inventory (Build_World c (Some p) o t e f) =
    (Raise ex, Build_World (rollback_conn c) (Some p) o t e f').
Proof.
  rewrite save_inventory_unfold.
  destruct (hd false f).
  - exists (tl f). right. eexists. reflexivity.
  - destruct (for_each_insert_any p (map_to_list (inv p))
                (with_view
                   (set_inventory
                      (filter (λ kv, kv.1.1 ≠ username p) (inventory (view c)))
                      (view c)) c) o t e (tl f))
      as (f' & [Hok|(ex & m & Hex)]).
    + apply NoDup_fst_map_to_list.
    + intros i _. simpl. apply map_lookup_filter_None. right.
      intros x _. simpl. tauto.
    + exists f'. left. rewrite Hok. reflexivity.
    + exists f'. right. exists ex. rewrite Hex. reflexivity.
Qed.

(** [remove_item] up to its call of [save_inventory]. *)
Lemma remove_item_unfold c p o t e f item q held :
  inv p !! item = Some held →
  q ≤ held →
  Player.remove_item item q (Build_World c (Some p) o t e f) =
  (Player.save_inventory ;; ret true)
    (Build_World c
       (Some (set_inv (if bool_decide (held - q = 0) then delete item (inv p)
                       else <[item := held - q]> (inv p)) p))
       o t e f).
Proof.
  intros Hheld Hle. unfold Player.remove_item. cbn.
  rewrite Hheld. cbn.
  rewrite bool_decide_eq_true_2 by lia. cbn.
  rewrite lookup_insert_eq.
  destruct (decide (held - q = 0)) as [Hz|Hnz].
  - rewrite Hz. rewrite !bool_decide_eq_true_2 by done. norm.
    rewrite delete_insert_eq. reflexivity.
  - rewrite !bool_decide_eq_false_2 by congruence. norm. reflexivity.
Qed.

#[local] Arguments Player.save : simpl never.
#[local] Arguments Player.add_item : simpl never.
#[local] Arguments Player.remove_item : simpl never.
#[local] Arguments Game.check_achievements : simpl never.

(** ** Defeat penalty *)



(** ** Purchase with insufficient funds *)



(** ** Achievement unlocks *)

Lemma existsb_unlock_rows u aid rows :
  existsb (unlock_of u aid) rows = true ↔
  filter (λ r, unlock_of u aid r = true) rows ≠ [].
Proof.
  induction rows as [|r rows IH]; simpl.
  - split; [discriminate | done].
  - destruct (unlock_of u aid r) eqn:E; simpl.
    + rewrite filter_cons_True by done. split; [discriminate | done].
    + rewrite filter_cons_False by congruence. exact IH.
Qed.

Lemma unlock_again_run p aid ts : ∀ c o t e,
  existsb (unlock_of (username p) aid) (player_achievements (view c)) = true →
  durable c = view c →
  ∃ c' t',
    unlock_again aid ts (Build_World c (Some p) o t e []) =
      (Ok tt, Build_World c' (Some p) o t' e []) ∧
    view c' = view c ∧ durable c' = view c.
Proof.
  induction ts as [|t1 ts IH]; intros c o t e Hex Hd.
  - exists c, t. simpl. unfold ret. done.
  - simpl. unfold advance_clock. norm.
    rewrite check_achievements_run. rewrite Hex. norm.
    destruct (IH (commit_conn (with_view (view c) c)) o t1 e) as (c' & t' & Hrun & Hv & Hdur).
    + simpl. exact Hex.
    + reflexivity.
    + exists c', t'. rewrite Hrun. simpl in Hv, Hdur. done.
Qed.

(** Once the row exists and the connection holds nothing uncommitted,
    further unlocks change no table, whatever the storage does; a call
    returns normally or raises the storage error. *)
Lemma unlock_again_any p aid ts : ∀ c o t e f,
  existsb (unlock_of (username p) aid) (player_achievements (view c)) = true →
  durable c = view c →
  ∃ c' t' f' res,
    unlock_again aid ts (Build_World c (Some p) o t e f) =
      (res, Build_World c' (Some p) o t' e f') ∧
    (res = Ok tt ∨ res = Raise (OperationalError "disk I/O error")) ∧
    view c' = view c ∧ durable c' = view c.
Proof.
  induction ts as [|t1 ts IH]; intros c o t e f Hex Hd.
  - exists c, t, f, (Ok tt). simpl. unfold ret. split; [done|]. split; [by left|done].
  - simpl. unfold advance_clock. norm.
    rewrite check_achievements_eq. destruct (hd false f).
    + exists (rollback_conn c), t1, (tl f),
        (Raise (OperationalError "disk I/O error")).
      split; [done|]. split; [by right|]. simpl. done.
    + unfold unlocked. rewrite Hex.
      destruct (IH (commit_conn
                      (with_view
                         (set_player_achievements (player_achievements (view c))
                            (view c)) c)) o t1 e (tl f))
        as (c' & t' & f' & res & Hrun & Hres & Hv & Hdur).
      * simpl. exact Hex.
      * reflexivity.
      * exists c', t', f', res. rewrite Hrun.
        split; [done|]. split; [exact Hres|].
        simpl in Hv, Hdur. rewrite Hv, Hdur. by destruct (view c).
Qed.

(** C6. Unlocking an achievement, then unlocking it again any number of
    times at arbitrary later clock values, leaves exactly one stored row for
    the (player, achievement) pair; the repeated calls change no row of the
    table, so the row keeps its first timestamp, and they raise nothing but
    a failure of the storage itself.  The table is assumed to respect its
    PRIMARY KEY beforehand, and the first unlock not to hit a storage
    failure. *)
Theorem unlock_idempotent (w : World) (p : Player) (aid : Z) (ts : list Z) :
  current_player w = Some p →
  next_statement_succeeds w →
  (length (unlock_rows (view (conn w)) (username p) aid) ≤ 1)%nat →
  let w1 := exec (Game.check_achievements [aid]) w in
  let wn := exec (unlock_again aid ts) w1 in
  result (Game.check_achievements [aid]) w = Ok tt ∧
  (result (unlock_again aid ts) w1 = Ok tt ∨
   result (unlock_again aid ts) w1 = Raise (OperationalError "disk I/O error")) ∧
  (faults w = [] → result (unlock_again aid ts) w1 = Ok tt) ∧
  length (unlock_rows (durable (conn w1)) (username p) aid) = 1%nat ∧
  (unlock_rows (view (conn w)) (username p) aid = [] →
   unlock_rows (durable (conn w1)) (username p) aid =
     [{| player_id := username p; achievement_id := aid;
         unlocked_at := clock w |}]) ∧
  player_achievements (durable (conn wn)) =
    player_achievements (durable (conn w1)) ∧
  unlock_rows (durable (conn wn)) (username p) aid =
    unlock_rows (durable (conn w1)) (username p) aid.
Proof.
  intros Hp Hf Hpk. destruct w as [c cp o t e f].
  unfold next_statement_succeeds in Hf. simpl in Hp, Hf, Hpk. subst cp.
  unfold exec, result. rewrite check_achievements_eq, Hf. cbn [fst snd].
  set (c1 := commit_conn _).
  assert (Hex1 : existsb (unlock_of (username p) aid)
                   (player_achievements (view c1)) = true).
  { subst c1. simpl. unfold unlocked.
    destruct (existsb _ (player_achievements (view c))) eqn:E; [done|].
    rewrite existsb_app. simpl. unfold unlock_of at 2. simpl.
    rewrite bool_decide_eq_true_2 by done. by rewrite orb_true_r. }
  assert (Hone : length (unlock_rows (durable c1) (username p) aid) = 1%nat ∧
                 (unlock_rows (view c) (username p) aid = [] →
                  unlock_rows (durable c1) (username p) aid =
                    [{| player_id := username p; achievement_id := aid;
                        unlocked_at := t |}])).
  { subst c1. unfold unlock_rows, unlocked in *. simpl.
    destruct (existsb _ (player_achievements (view c))) eqn:E.
    - apply existsb_unlock_rows in E. split.
      + destruct (filter _ (player_achievements (view c))) as [|r [|r' rest]];
          [done | done | simpl in Hpk; lia].
      + intros Hnil. done.
    - assert (Hnil : filter (λ r, unlock_of (username p) aid r = true)
                       (player_achievements (view c)) = []).
      { destruct (filter _ (player_achievements (view c))) eqn:F; [done|].
        assert (existsb (unlock_of (username p) aid)
                  (player_achievements (view c)) = true) as E'
          by (apply existsb_unlock_rows; rewrite F; done).
        congruence. }
      rewrite filter_app, Hnil. simpl.
      rewrite filter_cons_True.
      + done.
      + unfold unlock_of. simpl. by rewrite bool_decide_eq_true_2. }
  destruct Hone as [Hlen Hfirst].
  split; [done|].
  destruct (unlock_again_any p aid ts c1 o t e (tl f) Hex1 eq_refl)
    as (c' & t' & f' & res & Hrun & Hres & Hv & Hd).
  rewrite Hrun. cbn [fst snd conn].
  split; [exact Hres|].
  split.
  { intros Hnil. simpl in Hnil. subst f.
    destruct (unlock_again_run p aid ts c1 o t e Hex1 eq_refl)
      as (c'' & t'' & Hrun2 & _).
    simpl in Hrun. rewrite Hrun2 in Hrun. by inversion Hrun. }
  split; [exact Hlen|]. split; [exact Hfirst|].
  unfold unlock_rows. rewrite Hd. subst c1. simpl. done.
Qed.

Lemma unlock_idempotent_witness :
  let w := world_of db0 alice [] in
  let w1 := exec (Game.check_achievements [3]) w in
  let wn := exec (unlock_again 3 [2000; 3000]) w1 in
  unlock_rows (durable (conn wn)) "alice" 3 =
    [{| player_id := "alice"; achievement_id := 3; unlocked_at := 1000 |}].
Proof.
  pose proof (unlock_idempotent (world_of db0 alice []) alice 3 [2000; 3000]
                eq_refl eq_refl (Nat.le_0_l 1)) as H.
  cbv zeta in H. destruct H as (_ & _ & _ & _ & Hfirst & _ & Hsame).
  exact (eq_trans Hsame (Hfirst eq_refl)).
Defined.

(** ** Mining *)

Lemma randint_range a b c cp o t e f :
  a ≤ b →
  ∃ r e', randint a b (Build_World c cp o t e f) =
            (Ok r, Build_World c cp o t e' f) ∧ a ≤ r ≤ b.
Proof.
  intros Hab. unfold randint. simpl. destruct e as [|x rest].
  - exists a, []. split; [done | lia].
  - exists (a + x `mod` (b - a + 1)), rest. split; [done|].
    pose proof (Z.mod_pos_bound x (b - a + 1)). lia.
Qed.

(** C9. A mining operation that succeeds, that is, one whose last printed
    line is the reward line (an error would print its own line after or
    instead of it), drew a reward [r] with [10 ≤ r ≤ 50], added [r] to the
    balance and to the quantity of item TAC, stored the player's row and
    inventory, and unlocked achievement 1: the unlock row is added when the
    player has none and the table is left alone when it has one. *)
Theorem explore_rewards (w : World) (p : Player) :
  current_player w = Some p →
  mined w →
  ∃ r, 10 ≤ r ≤ 50 ∧
    let p' := set_inv (<["TAC" := default 0 (inv p !! "TAC") + r]> (inv p))
                (set_tac_balance (tac_balance p + r) p) in
    let w' := exec Game.explore w in
    result Game.explore w = Ok tt ∧
    current_player w' = Some p' ∧
    tac_balance p' = tac_balance p + r ∧
    inv p' !! "TAC" = Some (default 0 (inv p !! "TAC") + r) ∧
    (∀ item, item ≠ "TAC" → inv p' !! item = inv p !! item) ∧
    stored_balance (durable (conn w')) (username p) = Some (tac_balance p + r) ∧
    (∀ item, stored_quantity (durable (conn w')) (username p) item = inv p' !! item) ∧
    player_achievements (durable (conn w')) =
      unlocked (username p) 1 (clock w) (player_achievements (view (conn w))) ∧
    (unlock_rows (view (conn w)) (username p) 1 ≠ [] →
     player_achievements (durable (conn w')) =
       player_achievements (view (conn w))).
Proof.
  intros Hp [r0 Hlast]. destruct w as [c cp o t e f]. simpl in Hp. subst cp.
  destruct (randint_range 10 50 c (Some p)
              (o ++ [(nl ++ "Accessing quantum compute node...")%string])%list
              t e f)
    as (r & e' & Hr & Hrange); [lia|].
  exists r. split; [exact Hrange|].
  revert Hlast.
  unfold exec, result, Game.explore, try_except. norm.
  rewrite Hr. norm. unfold Player.add_item. norm.
  match goal with
  | |- context [Player.save_inventory (Build_World ?c1 (Some ?p1) ?o1 ?t1 ?e1 ?f1)] =>
      destruct (save_inventory_any c1 p1 o1 t1 e1 f1) as (f1' & [Hok|(ex & Hex)])
  end.
  2: { rewrite Hex. norm. unfold print. norm.
       rewrite !last_snoc; intros Hbad; by inversion Hbad. }
  rewrite Hok. norm. unfold Player.save, try_except. norm.
  rewrite save_player_eq. destruct (hd false f1').
  { norm. rewrite bool_decide_eq_true_2 by lia.
    rewrite check_achievements_eq. destruct (hd false (tl f1')); norm;
      [unfold print; norm|];
      rewrite !last_snoc; intros Hbad; by inversion Hbad. }
  norm.
  match goal with
  | |- context [Player.save_inventory (Build_World ?c1 (Some ?p1) ?o1 ?t1 ?e1 ?f1)] =>
      destruct (save_inventory_any c1 p1 o1 t1 e1 f1) as (f2 & [Hok2|(ex2 & Hex2)])
  end.
  2: { rewrite Hex2. norm. rewrite bool_decide_eq_true_2 by lia.
       rewrite check_achievements_eq. destruct (hd false f2); norm;
         [unfold print; norm|];
         rewrite !last_snoc; intros Hbad; by inversion Hbad. }
  rewrite Hok2. norm. rewrite bool_decide_eq_true_2 by lia.
  rewrite check_achievements_eq. destruct (hd false f2).
  { norm. unfold print. norm.
    rewrite !last_snoc; intros Hbad; by inversion Hbad. }
  norm. intros _.
  unfold stored_balance, stored_quantity. simpl.
  split; [done|]. split; [done|]. split; [done|].
  split; [by rewrite lookup_insert_eq|].
  split; [intros item Hne; by rewrite lookup_insert_ne|].
  split; [by rewrite lookup_insert_eq|].
  split; [intros item; rewrite lookup_replace_inventory; by rewrite decide_True|].
  split; [done|].
  intros Hne. apply existsb_unlock_rows in Hne. unfold unlocked.
  by rewrite Hne.
Qed.

Lemma explore_rewards_witness :
  let w := world_of db0 alice [] in
  ∃ r, 10 ≤ r ≤ 50 ∧
       (tac_balance <$> current_player (exec Game.explore w)) = Some (100 + r) ∧
       stored_quantity (durable (conn (exec Game.explore w))) "alice" "TAC" = Some r.
Proof.
  destruct (explore_rewards (world_of db0 alice []) alice eq_refl
              (ex_intro _ 10 eq_refl))
    as (r & Hr & H).
  cbv zeta in H. destruct H as (_ & Hcp & _ & Htac & _ & _ & Hst & _).
  exists r. split; [exact Hr|]. cbv zeta. rewrite Hcp. split; [reflexivity|].
  etransitivity; [exact (Hst "TAC")|]. rewrite Htac. reflexivity.
Defined.

(** ** The inventory ledger *)

Lemma inventory_saved_positive p d :
  positive_inventory (inv p) → stored_positive (inventory_saved p d) (username p).
Proof.
  intros Hpos item q. unfold stored_quantity, inventory_saved. simpl.
  rewrite lookup_replace_inventory, decide_True by done. apply Hpos.
Qed.

(** After [save_inventory], on any storage, a positive dictionary leaves
    positive stored rows: either the rows are the dictionary, or the
    rollback restored the rows from before. *)
Lemma save_inventory_ledger_ok c p o t e f :
  positive_inventory (inv p) →
  stored_positive (durable c) (username p) →
  ledger_ok (username p)
    (exec Player.save_inventory (Build_World c (Some p) o t e f)).
Proof.
  intros Hpos Hd. unfold exec.
  destruct (save_inventory_any c p o t e f) as (f' & [Hok|(ex & Hex)]).
  - rewrite Hok. exists p. simpl. repeat split; try done;
      by apply inventory_saved_positive.
  - rewrite Hex. exists p. simpl. done.
Qed.

Lemma add_positive_inventory item q d :
  0 < q → positive_inventory d →
  positive_inventory (<[item := default 0 (d !! item) + q]> d).
Proof.
  intros Hq Hpos i v. destruct (decide (i = item)) as [->|Hne].
  - rewrite lookup_insert_eq. intros [= <-].
    destruct (d !! item) as [h|] eqn:E; simpl; [|lia].
    specialize (Hpos item h E). lia.
  - rewrite lookup_insert_ne by done. apply Hpos.
Qed.

Lemma taken_positive_inventory item held q d :
  q ≤ held → positive_inventory d →
  positive_inventory (if bool_decide (held - q = 0) then delete item d
                      else <[item := held - q]> d).
Proof.
  intros Hle Hpos i v. case_bool_decide as Hz.
  - destruct (decide (i = item)) as [->|Hne].
    + by rewrite lookup_delete_eq.
    + rewrite lookup_delete_ne by done. apply Hpos.
  - destruct (decide (i = item)) as [->|Hne].
    + rewrite lookup_insert_eq. intros [= <-]. lia.
    + rewrite lookup_insert_ne by done. apply Hpos.
Qed.

Lemma run_op_ledger_ok u op w :
  adds_positive op → ledger_ok u w → ledger_ok u (exec (run_op op) w).
Proof.
  intros Hop (p & Hp & Hu & Hpos & Hv & Hd).
  destruct w as [c cp o t e f]. simpl in Hp, Hv, Hd. subst cp u.
  destruct op as [item q|item q]; simpl in Hop |- *.
  - unfold exec, Player.add_item. norm.
    apply (save_inventory_ledger_ok c (set_inv _ p)); [|done].
    by apply add_positive_inventory.
  - unfold exec, bind.
    destruct (decide (q ≤ default 0 (inv p !! item))) as [Hle|Hgt].
    + destruct (inv p !! item) as [held|] eqn:E.
      * rewrite (remove_item_unfold c p o t e f item q held E Hle).
        pose proof (save_inventory_ledger_ok c
                      (set_inv (if bool_decide (held - q = 0)
                                then delete item (inv p)
                                else <[item := held - q]> (inv p)) p) o t e f
                      (taken_positive_inventory item held q (inv p) Hle Hpos) Hd)
          as Hok.
        unfold exec in Hok. unfold bind.
        destruct (Player.save_inventory _) as [[[]|ex] w1]; exact Hok.
      * unfold Player.remove_item. norm. rewrite E. norm.
        rewrite bool_decide_eq_true_2 by done. norm. exists p. done.
    + unfold Player.remove_item. norm.
      rewrite bool_decide_eq_false_2 by done. norm. exists p. done.
Qed.

Lemma for_each_ledger_ok u ops : ∀ w,
  Forall adds_positive ops → ledger_ok u w →
  ledger_ok u (exec (for_each ops run_op) w).
Proof.
  induction ops as [|op ops IH]; intros w Hops Hok.
  - exact Hok.
  - inversion Hops as [|? ? Hop Hops']; subst.
    pose proof (run_op_ledger_ok u op w Hop Hok) as Hok1.
    unfold exec in *. simpl. unfold bind.
    destruct (run_op op w) as [[[]|ex] w1]; simpl in Hok1 |- *.
    + apply IH; done.
    + exact Hok1.
Qed.

Lemma alice_inventory_positive : positive_inventory (inv alice).
Proof. intros item q H. unfold alice in H. simpl in H. by rewrite lookup_empty in H. Qed.

Lemma db0_stored_positive u : stored_positive db0 u.
Proof.
  intros item q H. unfold stored_quantity, db0 in H. simpl in H.
  by rewrite lookup_empty in H.
Qed.

(** C5, as stated, fails: [add_item] stores whatever sum it computes, so
    adding quantity 0 of a new item leaves a zero-quantity entry in the
    dictionary and in table [inventory].  A buyer gets there by purchasing a
    listing whose quantity is 0. *)
Lemma zero_quantity_entry_stored :
  let w := world_of db0 alice [] in
  positive_inventory (inv alice) ∧
  stored_positive (durable (conn w)) "alice" ∧
  (inv <$> current_player (exec (Player.add_item "core" 0) w)) =
    Some (<["core" := 0]> ∅) ∧
  stored_quantity (durable (conn (exec (Player.add_item "core" 0) w)))
    "alice" "core" = Some 0 ∧
  let w2 := world_of
              (set_marketplace
                 (<[1 := {| seller := "bob"; item_name := "core"; price := 10;
                           quantity := 0; listed_at := 0 |}]> ∅) db0)
              alice [] in
  stored_quantity (durable (conn (exec (Game.purchase_listing 1) w2)))
    "alice" "core" = Some 0.
Proof.
  cbv zeta. split; [|split].
  - apply alice_inventory_positive.
  - apply db0_stored_positive.
  - vm_compute. done.
Qed.

(** C5, amended to additions of positive quantities.  On any storage, from
    a dictionary and stored rows with positive quantities only:
    - [remove_item] of more than is held returns [False] and changes nothing;
    - when [remove_item] returns [True], the item was held, the quantity
      left under it is [held - q ≥ 0], with no entry at all when that is 0,
      other items are untouched, and the stored rows are the dictionary;
    - after any sequence of [add_item] with positive quantities and
      [remove_item] with any quantity, every entry of the dictionary and
      every stored row of the player still has a positive quantity. *)
Theorem inventory_stays_positive (w : World) (p : Player) (ops : list inv_op) :
  current_player w = Some p →
  positive_inventory (inv p) →
  stored_positive (view (conn w)) (username p) →
  stored_positive (durable (conn w)) (username p) →
  Forall adds_positive ops →
  (∀ item q, default 0 (inv p !! item) < q →
     run (Player.remove_item item q) w = (Ok false, w)) ∧
  (∀ item q w1, run (Player.remove_item item q) w = (Ok true, w1) →
     ∃ held p', inv p !! item = Some held ∧ q ≤ held ∧
           current_player w1 = Some p' ∧
           0 ≤ held - q ∧
           inv p' !! item = (if decide (held - q = 0) then None
                             else Some (held - q)) ∧
           (∀ other, other ≠ item → inv p' !! other = inv p !! other) ∧
           (∀ i, stored_quantity (durable (conn w1)) (username p) i
                 = inv p' !! i)) ∧
  let w' := exec (for_each ops run_op) w in
  ∃ p', current_player w' = Some p' ∧ username p' = username p ∧
        positive_inventory (inv p') ∧
        stored_positive (view (conn w')) (username p) ∧
        stored_positive (durable (conn w')) (username p).
Proof.
  intros Hp Hpos Hv Hd Hops. split; [|split].
  - intros item q Hlt. destruct w as [c cp o t e f]. simpl in Hp. subst cp.
    unfold run, Player.remove_item. norm.
    rewrite bool_decide_eq_false_2 by lia. reflexivity.
  - intros item q w1. destruct w as [c cp o t e f]. simpl in Hp. subst cp.
    unfold run.
    destruct (decide (q ≤ default 0 (inv p !! item))) as [Hle|Hgt].
    + destruct (inv p !! item) as [held|] eqn:E.
      * rewrite (remove_item_unfold c p o t e f item q held E Hle).
        unfold bind.
        destruct (save_inventory_any c
                    (set_inv (if bool_decide (held - q = 0)
                              then delete item (inv p)
                              else <[item := held - q]> (inv p)) p) o t e f)
          as (f' & [Hok|(ex & Hex)]).
        -- rewrite Hok. unfold ret. intros [= <-].
           exists held. eexists. split; [done|]. split; [done|].
           cbn [current_player conn durable commit_conn].
           split; [reflexivity|]. split; [simpl in Hle; lia|].
           simpl. split; [|split].
           ++ case_bool_decide as Hz.
              ** rewrite decide_True by done. apply lookup_delete_eq.
              ** rewrite decide_False by done. apply lookup_insert_eq.
           ++ intros other Hne. case_bool_decide.
              ** by rewrite lookup_delete_ne.
              ** by rewrite lookup_insert_ne.
           ++ intros i. unfold stored_quantity. simpl.
              rewrite lookup_replace_inventory. by rewrite decide_True.
        -- rewrite Hex. discriminate.
      * unfold Player.remove_item. norm. rewrite E. norm.
        rewrite bool_decide_eq_true_2 by done. norm. discriminate.
    + unfold Player.remove_item. norm.
      rewrite bool_decide_eq_false_2 by done. norm. discriminate.
  - cbv zeta.
    destruct (for_each_ledger_ok (username p) ops w Hops) as (p' & H).
    + exists p. done.
    + exists p'. destruct H as (? & ? & ? & ? & ?). done.
Qed.

Lemma inventory_stays_positive_witness :
  let w := world_of db0 alice [false; true] in
  let ops := [AddItem "core" 3; RemoveItem "core" 5; RemoveItem "core" 3] in
  ∃ p', current_player (exec (for_each ops run_op) w) = Some p' ∧
        positive_inventory (inv p').
Proof.
  destruct (inventory_stays_positive (world_of db0 alice [false; true]) alice
              [AddItem "core" 3; RemoveItem "core" 5; RemoveItem "core" 3]
              eq_refl alice_inventory_positive
              (db0_stored_positive "alice") (db0_stored_positive "alice"))
    as (_ & _ & H).
  - repeat constructor; simpl; lia.
  - cbv zeta in H. destruct H as (p' & Hcp & _ & Hp' & _).
    exists p'. split; [exact Hcp | exact Hp'].
Defined.

(** ** Creating a listing *)


(** C4, as stated, fails on its last clause.  The listing row is committed
    by one transaction and the inventory is rewritten by a second one: the
    durable state in between holds the new listing and the seller's full
    stock, and a storage failure in the second transaction leaves exactly
    that state behind.  (Also, for an item the seller does not hold, a
    quantity of 0 is refused although it does not exceed the holdings.) *)
Lemma create_listing_not_one_transaction :
  let w := world_of db_nova nova [] in
  let w' := exec (Game.create_listing "core" 2 10) w in
  let l := new_listing nova "core" 2 10 1000 in
  (∃ d1, history (conn w') = [d1; db_nova] ∧
         marketplace d1 !! 1 = Some l ∧
         stored_quantity d1 "nova" "core" = Some 3) ∧
  stored_quantity (durable (conn w')) "nova" "core" = Some 1 ∧
  (let wf := world_of db_nova nova [false; true] in
   result (Game.create_listing "core" 2 10) wf =
     Raise (OperationalError "disk I/O error") ∧
   marketplace (durable (conn (exec (Game.create_listing "core" 2 10) wf))) !! 1
     = Some l ∧
   stored_quantity (durable (conn (exec (Game.create_listing "core" 2 10) wf)))
     "nova" "core" = Some 3) ∧
  marketplace (durable (conn (exec (Game.create_listing "gem" 0 10) w))) = ∅.
Proof.
  cbv zeta. split; [|split; [|split]].
  - eexists. split; [vm_compute; reflexivity|]. vm_compute. done.
  - vm_compute. done.
  - vm_compute. done.
  - vm_compute. done.
Qed.

(** [create_listing] for a held item and a quantity within the holdings,
    on any storage: the INSERT commits or raises, then [remove_item] saves
    the inventory or raises. *)
Lemma create_listing_any c p o t e f item qty pr held :
  inv p !! item = Some held →
  qty ≤ held →
  let d1 := listing_inserted p item qty pr t (view c) in
  let p' := set_inv (taken item held qty (inv p)) p in
  let o1 := (o ++ [(nl ++ "Neural Inventory:")%string])%list in
  ∃ f',
    (hd false f = true ∧
     Game.create_listing item qty pr (Build_World c (Some p) o t e f) =
     (Raise (OperationalError "disk I/O error"),
      Build_World (rollback_conn c) (Some p) o1 t e f'))
    ∨ (hd false f = false ∧ ∃ ex,
     Game.create_listing item qty pr (Build_World c (Some p) o t e f) =
     (Raise ex,
      Build_World (rollback_conn (commit_conn (with_view d1 c)))
        (Some p') o1 t e f'))
    ∨ (hd false f = false ∧
     Game.create_listing item qty pr (Build_World c (Some p) o t e f) =
     (Ok tt,
      Build_World
        (commit_conn (with_view (inventory_saved p' d1)
                        (commit_conn (with_view d1 c))))
        (Some p') (o1 ++ ["Quantum contract established!"])%list t e f')).
Proof.
  intros Hheld Hle. cbv zeta.
  unfold Game.create_listing, DatabaseManager.transaction, try_except.
  destruct f as [|[] f].
  - norm. rewrite Hheld. rewrite bool_decide_eq_false_2 by lia. norm.
    rewrite (remove_item_unfold _ p _ t e [] item qty held Hheld Hle). norm.
    match goal with
    | |- context [Player.save_inventory (Build_World ?c1 (Some ?p1) ?o1 ?t1 ?e1 ?f1)] =>
        destruct (save_inventory_any c1 p1 o1 t1 e1 f1) as (f2 & [Hok|(ex & Hex)])
    end.
    + exists f2. right. right. split; [done|]. rewrite Hok. norm.
      unfold print. norm. reflexivity.
    + exists f2. right. left. split; [done|]. exists ex. rewrite Hex. norm.
      reflexivity.
  - norm. rewrite Hheld. rewrite bool_decide_eq_false_2 by lia. norm.
    exists f. left. done.
  - norm. rewrite Hheld. rewrite bool_decide_eq_false_2 by lia. norm.
    rewrite (remove_item_unfold _ p _ t e f item qty held Hheld Hle). norm.
    match goal with
    | |- context [Player.save_inventory (Build_World ?c1 (Some ?p1) ?o1 ?t1 ?e1 ?f1)] =>
        destruct (save_inventory_any c1 p1 o1 t1 e1 f1) as (f2 & [Hok|(ex & Hex)])
    end.
    + exists f2. right. right. split; [done|]. rewrite Hok. norm.
      unfold print. norm. reflexivity.
    + exists f2. right. left. split; [done|]. exists ex. rewrite Hex. norm.
      reflexivity.
Qed.

(** C4, amended.  A call for an item the seller does not hold, or for more
    than the [held] units, is refused: no row is written and the [Player]
    object is untouched.  A call for at most [held] units of a held item
    that returns normally has inserted a row with a new id carrying the
    seller, item, quantity and unit price, and has taken the quantity out of
    the seller's dictionary and stored inventory; the insertion is committed
    first ([d1] below), the inventory second. *)
Theorem create_listing_effects (w : World) (p : Player) (item : string) (qty pr : Z) :
  current_player w = Some p →
  let w' := exec (Game.create_listing item qty pr) w in
  let lid := next_listing_id (marketplace (view (conn w))) in
  (default 0 (inv p !! item) < qty ∨ inv p !! item = None →
     result (Game.create_listing item qty pr) w = Ok tt ∧
     current_player w' = Some p ∧ conn w' = conn w ∧
     (last (stdout w') = Some "Resource deficit detected" ∨
      last (stdout w') = Some "Inventory anomaly detected")) ∧
  (∀ held, inv p !! item = Some held → qty ≤ held →
     result (Game.create_listing item qty pr) w = Ok tt →
     ∃ p' d1,
       current_player w' = Some p' ∧
       marketplace (view (conn w)) !! lid = None ∧
       d1 = listing_inserted p item qty pr (clock w) (view (conn w)) ∧
       marketplace d1 !! lid = Some (new_listing p item qty pr (clock w)) ∧
       inventory d1 = inventory (view (conn w)) ∧
       history (conn w') = d1 :: durable (conn w) :: history (conn w) ∧
       marketplace (durable (conn w')) = marketplace d1 ∧
       players (durable (conn w')) = players (view (conn w)) ∧
       inv p' !! item = (if decide (held - qty = 0) then None
                         else Some (held - qty)) ∧
       (∀ other, other ≠ item → inv p' !! other = inv p !! other) ∧
       (∀ i, stored_quantity (durable (conn w')) (username p) i = inv p' !! i)).
Proof.
  intros Hp. destruct w as [c cp o t e f]. simpl in Hp. subst cp.
  cbv zeta. unfold exec, result. cbn [conn view clock].
  split.
  - intros Hrefused. unfold Game.create_listing. norm.
    destruct (inv p !! item) as [held|] eqn:E.
    + destruct Hrefused as [Hlt|[=]]. simpl in Hlt.
      rewrite bool_decide_eq_true_2 by done. unfold print. norm.
      split; [done|]. split; [done|]. split; [done|]. left.
      by rewrite last_snoc.
    + unfold print. norm.
      split; [done|]. split; [done|]. split; [done|]. right.
      by rewrite last_snoc.
  - intros held Hheld Hle.
    destruct (create_listing_any c p o t e f item qty pr held Hheld Hle)
      as (f' & [[_ Hrun]|[[_ [ex Hrun]]|[_ Hrun]]]); rewrite Hrun;
      cbn [fst snd]; [discriminate | discriminate |].
    intros _. cbn [current_player conn].
    eexists. eexists. split; [reflexivity|].
    split; [apply next_listing_id_fresh|].
    split; [reflexivity|].
    split; [simpl; apply lookup_insert_eq|].
    split; [reflexivity|].
    split; [reflexivity|].
    split; [reflexivity|].
    split; [reflexivity|].
    simpl. unfold taken. split; [|split].
    + case_bool_decide as Hz.
      * rewrite decide_True by done. apply lookup_delete_eq.
      * rewrite decide_False by done. apply lookup_insert_eq.
    + intros other Hne. case_bool_decide.
      * by rewrite lookup_delete_ne.
      * by rewrite lookup_insert_ne.
    + intros i. unfold stored_quantity. simpl.
      rewrite lookup_replace_inventory. by rewrite decide_True.
Qed.

(** nova lists 5 units of core while holding 3: refused, nothing created. *)
Lemma create_listing_effects_witness :
  let w := world_of db_nova nova [] in
  let w' := exec (Game.create_listing "core" 5 10) w in
  current_player w' = Some nova ∧ conn w' = conn w ∧
  marketplace (durable (conn w')) = ∅.
Proof.
  pose proof (create_listing_effects (world_of db_nova nova []) nova "core" 5 10
                eq_refl) as H.
  cbv zeta in H. destruct H as (Href & _).
  destruct Href as (_ & Hcp & Hconn & _).
  - left. vm_compute. reflexivity.
  - cbv zeta. split; [exact Hcp|]. split; [exact Hconn|].
    rewrite Hconn. reflexivity.
Defined.




(** ** Purchasing a listing *)


(** C1 fails on the code.  alice (balance 100) buys listing 1 (bob sells 5
    core at 10 each).  The call succeeds, but
    - the debit reaches only the [Player] object: alice's stored balance is
      still 100 when the call returns;
    - [add_item] commits on the shared connection in the middle of the
      purchase, so the durable state passes through one where bob is
      credited and alice holds the goods while the listing is still open;
    - a storage failure at the statement that deletes the listing leaves
      exactly that state behind, rollback notwithstanding. *)
Theorem purchase_listing_not_atomic :
  let w := world_of db0 alice [] in
  let w' := exec (Game.purchase_listing 1) w in
  result (Game.purchase_listing 1) w = Ok tt ∧
  (tac_balance <$> current_player w') = Some 50 ∧
  stored_balance (durable (conn w')) "alice" = Some 100 ∧
  stored_balance (durable (conn w')) "bob" = Some 70 ∧
  stored_quantity (durable (conn w')) "alice" "core" = Some 5 ∧
  marketplace (durable (conn w')) !! 1 = None ∧
  (∃ d1 d2, history (conn w') = [d2; d1; db0] ∧
            stored_balance d1 "bob" = Some 70 ∧
            stored_quantity d1 "alice" "core" = Some 5 ∧
            stored_balance d1 "alice" = Some 100 ∧
            marketplace d1 !! 1 = Some core_listing) ∧
  let wf := world_of db0 alice [false; false; false; false; true] in
  let wf' := exec (Game.purchase_listing 1) wf in
  result (Game.purchase_listing 1) wf = Raise (OperationalError "disk I/O error") ∧
  view (conn wf') = durable (conn wf') ∧
  stored_balance (durable (conn wf')) "bob" = Some 70 ∧
  stored_quantity (durable (conn wf')) "alice" "core" = Some 5 ∧
  stored_balance (durable (conn wf')) "alice" = Some 100 ∧
  marketplace (durable (conn wf')) !! 1 = Some core_listing.
Proof.
  cbv zeta.
  split; [vm_compute; reflexivity|].
  split; [vm_compute; reflexivity|].
  split; [vm_compute; reflexivity|].
  split; [vm_compute; reflexivity|].
  split; [vm_compute; reflexivity|].
  split; [vm_compute; reflexivity|].
  split.
  { eexists. eexists. split; [vm_compute; reflexivity|]. vm_compute. done. }
  vm_compute. done.
Qed.

(** ** Exceptions inside a transaction *)





(** ** Checking a password *)

(** C10. Whatever digest is stored, [check_password] returns a boolean
    and does not raise, and the boolean is [False] whenever [bcrypt.checkpw]
    rejects the digest with [ValueError] (the empty string, or a value that
    is no bcrypt hash).  [ValueError] is assumed to be the only exception
    the library raises on a password and a digest. *)
Theorem check_password_bad_digest
    (bcrypt_checkpw : string → string → exn + bool)
    (p : Player) (password : string) :
  (∀ e, bcrypt_checkpw password (password_hash p) = inl e →
        ∃ msg, e = ValueError msg) →
  (∃ verdict, Player.check_password bcrypt_checkpw p password = inr verdict) ∧
  (∀ msg, bcrypt_checkpw password (password_hash p) = inl (ValueError msg) →
          Player.check_password bcrypt_checkpw p password = inr false).
Proof.
  intros Honly. unfold Player.check_password.
  destruct (bcrypt_checkpw password (password_hash p)) as [e|verdict] eqn:E.
  - destruct (Honly e eq_refl) as [msg ->]. split; [by exists false | done].
  - split; [by exists verdict | discriminate].
Qed.

Lemma toy_checkpw_only_value_error password digest e :
  toy_checkpw password digest = inl e → ∃ msg, e = ValueError msg.
Proof.
  unfold toy_checkpw. case_bool_decide; [discriminate|].
  intros [= <-]. by eexists.
Qed.

Lemma check_password_bad_digest_witness :
  Player.check_password toy_checkpw (Build_Player "nova" "" 1 100 100 ∅)
    "quantum-key" = inr false.
Proof.
  exact (proj2 (check_password_bad_digest toy_checkpw
                  (Build_Player "nova" "" 1 100 100 ∅) "quantum-key"
                  (toy_checkpw_only_value_error "quantum-key" ""))
           "Invalid salt" eq_refl).
Defined.

(** * Further properties of the code *)

(** ** Loading a player *)

Lemma lookup_sql_select_inventory u d i :
  sql_select_inventory u d !! i = inventory d !! (u, i).
Proof.
  unfold sql_select_inventory.
  apply (map_fold_weak_ind
           (λ r (m : gmap (string * string) Z), r !! i = m !! (u, i))).
  - by rewrite !lookup_empty.
  - intros [k1 k2] q m r Hk IH. simpl.
    destruct (decide (k1 = u)) as [->|Hne].
    + destruct (decide (k2 = i)) as [->|Hki].
      * by rewrite !lookup_insert_eq.
      * rewrite !lookup_insert_ne by congruence. exact IH.
    + rewrite lookup_insert_ne by congruence. exact IH.
Qed.

Lemma sql_select_inventory_saved p d :
  sql_select_inventory (username p) (inventory_saved p d) = inv p.
Proof.
  apply map_eq. intros i. rewrite lookup_sql_select_inventory.
  unfold inventory_saved. simpl.
  rewrite lookup_replace_inventory. by rewrite decide_True.
Qed.

Lemma load_run hp u c cp o t e :
  Player.load hp u (Build_World c cp o t e []) =
  match players (view c) !! u with
  | Some row =>
      (Ok (Some (loaded u row (view c))),
       Build_World (commit_conn (commit_conn c)) cp o t e [])
  | None => (Ok None, Build_World (commit_conn c) cp o t e [])
  end.
Proof.
  unfold Player.load, DatabaseManager.get_player, Player.__init__,
    Player._load_inventory, DatabaseManager.transaction, try_except,
    sql_select_player.
  norm. destruct (players (view c) !! u) as [row|]; reflexivity.
Qed.

Lemma save_healthy c p o t e :
  Player.save (Build_World c (Some p) o t e []) =
  (Ok tt,
   Build_World
     (commit_conn
        (with_view (inventory_saved p (player_saved p (view c)))
           (commit_conn (with_view (player_saved p (view c)) c))))
     (Some p) o t e []).
Proof.
  unfold Player.save, try_except. norm. rewrite save_inventory_run. reflexivity.
Qed.

(** X1. On a healthy storage, [load] answers from the store as the
    connection sees it: [None] for a name without a row, and otherwise an
    object with the columns of the row and, as inventory, exactly the stored
    quantities of that name.  It prints nothing and leaves the tables and
    the session as they are. *)
Theorem load_reflects_store (hp : string → string) (w : World) (u : string) :
  faults w = [] →
  let d := view (conn w) in
  let w' := exec (Player.load hp u) w in
  result (Player.load hp u) w =
    Ok (match players d !! u with
        | Some row => Some (loaded u row d)
        | None => None
        end) ∧
  (∀ row item, inv (loaded u row d) !! item = stored_quantity d u item) ∧
  view (conn w') = d ∧ durable (conn w') = d ∧
  current_player w' = current_player w ∧ stdout w' = stdout w.
Proof.
  intros Hf. destruct w as [c cp o t e f]. simpl in Hf. subst f.
  cbv zeta. unfold exec, result. rewrite load_run. cbn [conn view].
  split; [by destruct (players (view c) !! u)|].
  split; [intros row item; apply lookup_sql_select_inventory|].
  by destruct (players (view c) !! u).
Qed.

Lemma load_reflects_store_witness :
  result (Player.load toy_hashpw "nova") (world_logged_out db_nova []) = Ok (Some nova) ∧
  result (Player.load toy_hashpw "ghost") (world_logged_out db_nova []) = Ok None.
Proof.
  split.
  - etransitivity;
      [exact (proj1 (load_reflects_store toy_hashpw (world_logged_out db_nova [])
                       "nova" eq_refl))|].
    vm_compute. reflexivity.
  - exact (proj1 (load_reflects_store toy_hashpw (world_logged_out db_nova [])
                    "ghost" eq_refl)).
Defined.



(** ** Registration and login *)

Lemma long_password_not_empty (password : string) :
  ¬ (String.length password < 8)%nat → password ≠ "".
Proof. intros Hlen ->. simpl in Hlen. lia. Qed.







(** X6. On a healthy storage, registering a new handle and then logging in
    with the same handle and key succeeds, provided the library verifies a
    key against its own digest; the session then holds the registered
    player, as read back from the store. *)
Theorem register_then_login (hp : string → string)
    (checkpw : string → string → exn + bool) (w : World) (u password : string) :
  faults w = [] →
  ¬ (String.length u < 4)%nat →
  ¬ (String.length password < 8)%nat →
  players (view (conn w)) !! u = None →
  checkpw password (hp password) = inr true →
  let w' := exec (Game.register hp u password ;; Game.login hp checkpw u password) w in
  result (Game.register hp u password ;; Game.login hp checkpw u password) w
    = Ok true ∧
  current_player w' = Some (registered hp u password (view (conn w))) ∧
  last (stdout w') = Some ("Welcome back, " ++ u ++ "!")%string.
Proof.
  intros Hf Hu Hpw Hfree Hcheck. destruct w as [c cp o t e f].
  simpl in Hf, Hfree. subst f.
  cbv zeta. unfold exec, result, bind at 1 2 3.
  unfold Game.register at 1 2 3.
  unfold Game.validate_credentials, try_except.
  rewrite !bool_decide_eq_false_2 by done.
  norm. rewrite load_run, Hfree. norm.
  unfold Player.__init__, Player._load_inventory, Player._hash_password,
    DatabaseManager.transaction, try_except.
  rewrite bool_decide_eq_false_2 by (by apply long_password_not_empty).
  norm. rewrite save_healthy. norm.
  unfold Game.login, Game.validate_credentials, try_except.
  rewrite !bool_decide_eq_false_2 by done.
  norm. rewrite load_run. norm.
  rewrite lookup_insert_eq. norm.
  unfold Player.check_password. simpl. rewrite Hcheck. norm.
  rewrite last_snoc.
  split; [done|]. split; [|done].
  f_equal. unfold loaded, registered. simpl. f_equal.
  exact (sql_select_inventory_saved
           (Build_Player u (hp password) 1 100 100
              (sql_select_inventory u (view c))) _).
Qed.

Lemma register_then_login_witness :
  let w := world_logged_out db_nova [] in
  result (Game.register toy_hashpw "trinity" "quantum-key" ;;
          Game.login toy_hashpw toy_verify "trinity" "quantum-key") w = Ok true.
Proof.
  pose proof (register_then_login toy_hashpw toy_verify
                (world_logged_out db_nova []) "trinity" "quantum-key"
                eq_refl) as H.
  cbv zeta in H. destruct H as (Hres & _).
  - simpl. lia.
  - simpl. lia.
  - reflexivity.
  - reflexivity.
  - exact Hres.
Defined.

(** X7. Whatever the storage does, [login] returns [True] or [False] and
    never raises.  It returns [True] only when the handle and key pass the
    length check, the handle has a row, and the library verifies the typed
    key against the digest of that row; the session then holds the player
    read from the store.  When it returns [False], the session is the one
    from before. *)
Theorem login_only_if_verified (hp : string → string)
    (checkpw : string → string → exn + bool) (w : World) (u password : string) :
  let w' := exec (Game.login hp checkpw u password) w in
  let res := result (Game.login hp checkpw u password) w in
  (res = Ok true ∨ res = Ok false) ∧
  (res = Ok true →
     ¬ (String.length u < 4)%nat ∧ ¬ (String.length password < 8)%nat ∧
     ∃ row, players (view (conn w)) !! u = Some row ∧
            checkpw password (row_password_hash row) = inr true ∧
            current_player w' = Some (loaded u row (view (conn w)))) ∧
  (res = Ok false → current_player w' = current_player w).
Proof.
  destruct w as [c cp o t e f]. cbv zeta.
  unfold exec, result, Game.login, Game.validate_credentials, try_except.
  case_bool_decide as Hu.
  { norm. split; [by right|]. split; [discriminate|done]. }
  case_bool_decide as Hpw.
  { norm. split; [by right|]. split; [discriminate|done]. }
  unfold Player.load, DatabaseManager.get_player, Player.__init__,
    Player._load_inventory, DatabaseManager.transaction, try_except,
    sql_select_player, Player.check_password.
  destruct f as [|[] f].
  - norm. destruct (players (view c) !! u) as [row|] eqn:Hrow; norm.
    + destruct (checkpw password (row_password_hash row)) as [ex|[]] eqn:Hc.
      * destruct ex; norm;
          (split; [by right|]; split; [discriminate|done]).
      * norm. split; [by left|]. split; [|discriminate].
        intros _. split; [done|]. split; [done|]. by exists row.
      * norm. split; [by right|]. split; [discriminate|done].
    + split; [by right|]. split; [discriminate|done].
  - norm. split; [by right|]. split; [discriminate|done].
  - norm. destruct (players (view c) !! u) as [row|] eqn:Hrow; norm.
    + destruct f as [|[] f]; norm.
      * destruct (checkpw password (row_password_hash row)) as [ex|[]] eqn:Hc.
        -- destruct ex; norm;
             (split; [by right|]; split; [discriminate|done]).
        -- norm. split; [by left|]. split; [|discriminate].
           intros _. split; [done|]. split; [done|]. by exists row.
        -- norm. split; [by right|]. split; [discriminate|done].
      * split; [by right|]. split; [discriminate|done].
      * destruct (checkpw password (row_password_hash row)) as [ex|[]] eqn:Hc.
        -- destruct ex; norm;
             (split; [by right|]; split; [discriminate|done]).
        -- norm. split; [by left|]. split; [|discriminate].
           intros _. split; [done|]. split; [done|]. by exists row.
        -- norm. split; [by right|]. split; [discriminate|done].
    + split; [by right|]. split; [discriminate|done].
Qed.

Lemma login_only_if_verified_witness :
  let w := world_of db_nova alice [] in
  result (Game.login toy_hashpw toy_verify "nova" "not-the-key") w = Ok false ∧
  current_player (exec (Game.login toy_hashpw toy_verify "nova" "not-the-key") w)
    = Some alice.
Proof.
  pose proof (login_only_if_verified toy_hashpw toy_verify
                (world_of db_nova alice []) "nova" "not-the-key") as H.
  cbv zeta in H. destruct H as (_ & _ & Hfalse).
  assert (Hres : result (Game.login toy_hashpw toy_verify "nova" "not-the-key")
                   (world_of db_nova alice []) = Ok false)
    by (vm_compute; reflexivity).
  split; [exact Hres | exact (Hfalse Hres)].
Defined.

(** ** Combat *)

Lemma bind_never_waits {A} (m : M A) (k : A → M bool) (w : World) :
  (∀ a w', (k a w').1 ≠ Ok false) → (bind m k w).1 ≠ Ok false.
Proof.
  intros Hk. unfold bind. destruct (m w) as [[a|ex] w']; [apply Hk | done].
Qed.

Lemma bind_randint_never_waits a b (k : Z → M bool) (w : World) :
  a ≤ b →
  (∀ r w', a ≤ r ≤ b → (k r w').1 ≠ Ok false) →
  (bind (randint a b) k w).1 ≠ Ok false.
Proof.
  intros Hab Hk. destruct w as [c cp o t e f].
  destruct (randint_range a b c cp o t e f Hab) as (r & e' & Hr & Hrange).
  unfold bind. rewrite Hr. by apply Hk.
Qed.

Lemma battle_loop_ends choices : ∀ enemy_health w,
  enemy_health ≤ 5 * engage_commands choices →
  (Game.battle_loop choices enemy_health w).1 ≠ Ok false.
Proof.
  induction choices as [|choice rest IH]; intros eh w Heh.
  - unfold engage_commands in Heh. simpl in Heh.
    cbn [Game.battle_loop]. apply bind_never_waits. intros p w'.
    rewrite bool_decide_eq_false_2 by lia. done.
  - cbn [Game.battle_loop]. apply bind_never_waits. intros p w'.
    case_bool_decide as Hgo; [|done].
    apply bind_never_waits. intros _ w1.
    apply bind_never_waits. intros _ w2.
    unfold engage_commands in Heh, IH.
    case_bool_decide as He.
    + rewrite filter_cons_True in Heh by done. cbn [length] in Heh.
      apply bind_randint_never_waits; [lia|]. intros damage w3 Hd.
      apply bind_never_waits. intros _ w4.
      case_bool_decide as Hkill.
      * repeat (apply bind_never_waits; intros ? ?). done.
      * apply bind_randint_never_waits; [lia|]. intros hit w5 Hh.
        apply bind_never_waits. intros p1 w6.
        apply bind_never_waits. intros _ w7.
        apply bind_never_waits. intros _ w8.
        apply bind_never_waits. intros p2 w9.
        case_bool_decide as Hdown.
        -- repeat (apply bind_never_waits; intros ? ?). done.
        -- apply IH. lia.
    + rewrite filter_cons_False in Heh by done.
      case_bool_decide as Hr.
      * apply bind_never_waits. intros _ w3. done.
      * apply bind_never_waits. intros _ w3. apply IH. lia.
Qed.

(** X8. A battle is over after at most ten engage commands: whatever the
    session, the random source and the storage do, once ten of the typed
    commands are engages, [battle] has returned (it is not at the prompt
    waiting for another command). *)
Theorem battle_ends_within_ten_engages (w : World) (choices : list string) :
  10 ≤ engage_commands choices →
  result (Game.battle choices) w = Ok true.
Proof.
  intros Hten. unfold result, Game.battle, try_except, bind.
  cbn [print]. cbv beta iota.
  pose proof (battle_loop_ends choices 50
                (with_stdout (stdout w ++ [(nl ++ "ALERT: Corrupted TAC Goblin detected!")%string])%list w))
    as Hends.
  unfold print.
  destruct (Game.battle_loop choices 50 _) as [[[]|ex] w'] eqn:Hloop.
  - reflexivity.
  - exfalso. apply Hends; [lia | reflexivity].
  - reflexivity.
Qed.

Lemma battle_ends_within_ten_engages_witness :
  result (Game.battle ["e"; "x"; "e"; "e"; "e"; "e"; "e"; "e"; "e"; "e"; "e"])
         (world_of db0 alice []) = Ok true.
Proof.
  apply battle_ends_within_ten_engages. vm_compute. discriminate.
Defined.

Lemma save_keeps c p o t e f :
  ∃ c' o' f',
    Player.save (Build_World c (Some p) o t e f) =
    (Ok tt, Build_World c' (Some p) o' t e f').
Proof.
  unfold Player.save, try_except. norm. rewrite save_player_eq.
  destruct (hd false f).
  - unfold print. norm. by eexists _, _, _.
  - norm.
    match goal with
    | |- context [Player.save_inventory (Build_World ?c1 (Some ?p1) ?o1 ?t1 ?e1 ?f1)] =>
        destruct (save_inventory_any c1 p1 o1 t1 e1 f1) as (f2 & [Hok|(ex & Hex)])
    end.
    + rewrite Hok. by eexists _, _, _.
    + rewrite Hex. unfold print. norm. by eexists _, _, _.
Qed.

Lemma add_item_keeps c p o t e f item q :
  ∃ r c' f',
    Player.add_item item q (Build_World c (Some p) o t e f) =
    (r, Build_World c'
          (Some (set_inv (<[item := default 0 (inv p !! item) + q]> (inv p)) p))
          o t e f').
Proof.
  unfold Player.add_item. norm.
  match goal with
  | |- context [Player.save_inventory (Build_World ?c1 (Some ?p1) ?o1 ?t1 ?e1 ?f1)] =>
      destruct (save_inventory_any c1 p1 o1 t1 e1 f1) as (f2 & [Hok|(ex & Hex)])
  end.
  - rewrite Hok. by eexists _, _, _.
  - rewrite Hex. by eexists _, _, _.
Qed.

Lemma check_achievements_keeps c p o t e f aid :
  ∃ r c' f',
    Game.check_achievements [aid] (Build_World c (Some p) o t e f) =
    (r, Build_World c' (Some p) o t e f').
Proof.
  rewrite check_achievements_eq. destruct (hd false f); by eexists _, _, _.
Qed.

Lemma handle_defeat_keeps c p o t e f :
  ∃ c' o' f',
    Game.handle_defeat (Build_World c (Some p) o t e f) =
    (Ok tt,
     Build_World c'
       (Some (set_health 100
                (set_tac_balance (tac_balance p - Z.min 50 (tac_balance p)) p)))
       o' t e f').
Proof.
  unfold Game.handle_defeat. norm.
  match goal with
  | |- context [Player.save (Build_World ?c1 (Some ?p1) ?o1 ?t1 ?e1 ?f1)] =>
      destruct (save_keeps c1 p1 o1 t1 e1 f1) as (c2 & o2 & f2 & Hs)
  end.
  rewrite Hs. unfold print. norm. by eexists _, _, _.
Qed.

#[local] Arguments Game.handle_defeat : simpl never.
#[local] Arguments randint : simpl never.

Lemma battle_outcome_refl p : battle_outcome p p.
Proof. unfold battle_outcome. repeat split. left. repeat split; lia. Qed.

Lemma battle_outcome_hit p p' d :
  0 ≤ d → 0 < health p - d →
  battle_outcome (set_health (health p - d) p) p' → battle_outcome p p'.
Proof.
  unfold battle_outcome. destruct p as [u h l b hp i]. simpl.
  intros Hd Hpos (-> & -> & -> & H). repeat split.
  destruct H as [(-> & -> & ? & ?)|[(-> & -> & ? & ?)|(-> & -> & ?)]].
  - left. repeat split; lia.
  - right; left. repeat split; lia.
  - right; right. by repeat split.
Qed.

Lemma battle_outcome_win p :
  battle_outcome p
    (set_inv (<["TAC" := default 0 (inv p !! "TAC") + 50]> (inv p))
       (set_tac_balance (tac_balance p + 50) p)).
Proof.
  unfold battle_outcome. destruct p as [u h l b hp i]. simpl.
  repeat split. right; left. repeat split; lia.
Qed.

Lemma battle_outcome_defeat p d :
  battle_outcome p
    (set_health 100
       (set_tac_balance
          (tac_balance (set_health d p) - Z.min 50 (tac_balance (set_health d p)))
          (set_health d p))).
Proof.
  unfold battle_outcome. destruct p as [u h l b hp i]. simpl.
  repeat split. right; right. by repeat split.
Qed.

Ltac run_print :=
  unfold bind at 1; unfold print at 1; cbv beta iota;
  unfold with_stdout; cbn [conn current_player stdout clock entropy faults].

Ltac run_randint a b :=
  unfold bind at 1;
  match goal with
  | |- context [randint a b (Build_World ?c1 ?cp1 ?o1 ?t1 ?e1 ?f1)] =>
      let r := fresh "r" in
      let e2 := fresh "e" in
      let Hr := fresh "Hr" in
      let Hrange := fresh "Hrange" in
      destruct (randint_range a b c1 cp1 o1 t1 e1 f1)
        as (r & e2 & Hr & Hrange); [lia|];
      rewrite Hr; cbv beta iota
  end.

Lemma battle_loop_outcome choices : ∀ enemy_health c p o t e f,
  ∃ r c' p' o' e' f',
    Game.battle_loop choices enemy_health (Build_World c (Some p) o t e f) =
    (r, Build_World c' (Some p') o' t e' f') ∧
    battle_outcome p p'.
Proof.
  induction choices as [|choice rest IH]; intros eh c p o t e f.
  - cbn [Game.battle_loop]. norm. unfold print.
    case_bool_decide; norm; eexists _, _, _, _, _, _;
      (split; [reflexivity | apply battle_outcome_refl]).
  - cbn [Game.battle_loop]. unfold bind at 1. cbn [the_player current_player fst snd].
    cbv beta iota.
    case_bool_decide as Hgo.
    2: { eexists _, _, _, _, _, _; (split; [reflexivity | apply battle_outcome_refl]). }
    run_print. run_print.
    case_bool_decide as He.
    + run_randint 5 20. run_print.
      case_bool_decide as Hkill.
      * run_print. norm.
        match goal with
        | |- context [Player.add_item ?i ?q (Build_World ?c1 (Some ?p1) ?o1 ?t1 ?e1 ?f1)] =>
            destruct (add_item_keeps c1 p1 o1 t1 e1 f1 i q) as (ra & c2 & f2 & Ha)
        end.
        rewrite Ha. destruct ra as [[]|ex].
        2: { eexists _, _, _, _, _, _.
             split; [reflexivity | exact (battle_outcome_win p)]. }
        match goal with
        | |- context [Player.save (Build_World ?c1 (Some ?p1) ?o1 ?t1 ?e1 ?f1)] =>
            destruct (save_keeps c1 p1 o1 t1 e1 f1) as (c3 & o3 & f3 & Hs)
        end.
        rewrite Hs.
        match goal with
        | |- context [Game.check_achievements [?aid] (Build_World ?c1 (Some ?p1) ?o1 ?t1 ?e1 ?f1)] =>
            destruct (check_achievements_keeps c1 p1 o1 t1 e1 f1 aid)
              as (rc & c4 & f4 & Hc)
        end.
        rewrite Hc. destruct rc as [[]|ex];
          (eexists _, _, _, _, _, _;
           split; [reflexivity | exact (battle_outcome_win p)]).
      * run_randint 5 15. norm. unfold print. norm.
        case_bool_decide as Hdown.
        -- norm.
           match goal with
           | |- context [Game.handle_defeat (Build_World ?c1 (Some ?p1) ?o1 ?t1 ?e1 ?f1)] =>
               destruct (handle_defeat_keeps c1 p1 o1 t1 e1 f1) as (c2 & o2 & f2 & Hd)
           end.
           rewrite Hd. eexists _, _, _, _, _, _.
           split; [reflexivity | exact (battle_outcome_defeat p _)].
        -- match goal with
           | |- context [Game.battle_loop rest ?h (Build_World ?c1 (Some ?p1) ?o1 ?t1 ?e1 ?f1)] =>
               destruct (IH h c1 p1 o1 t1 e1 f1)
                 as (rl & c2 & p2 & o2 & e2 & f2 & Hloop & Hout)
           end.
           rewrite Hloop. eexists _, _, _, _, _, _.
           split; [reflexivity|].
           eapply battle_outcome_hit; [| |exact Hout]; lia.
    + case_bool_decide as Hret.
      * run_print. eexists _, _, _, _, _, _.
        split; [reflexivity | apply battle_outcome_refl].
      * run_print.
        destruct (IH eh c p
                    (o ++ [(nl ++ "System Integrity: " ++ pretty (health p))%string]
                       ++ [("Enemy Core Stability: " ++ pretty eh)%string]
                       ++ ["Invalid command sequence!"])%list t e f)
          as (rl & c2 & p2 & o2 & e2 & f2 & Hloop & Hout).
        rewrite <- !(assoc_L (++)).
        rewrite Hloop. by eexists _, _, _, _, _, _.
Qed.

Lemma battle_eq choices c cp o t e f :
  Game.battle choices (Build_World c cp o t e f) =
  match Game.battle_loop choices 50
          (Build_World c cp
             (o ++ [(nl ++ "ALERT: Corrupted TAC Goblin detected!")%string])%list
             t e f) with
  | (Ok finished, w') => (Ok finished, w')
  | (Raise ex, w') =>
      (Ok true,
       with_stdout
         (stdout w' ++ [("Combat simulation error: " ++ exn_str ex)%string])%list w')
  end.
Proof.
  unfold Game.battle, try_except. run_print.
  by destruct (Game.battle_loop choices 50 _) as [[finished|ex] w'].
Qed.

(** X9. Whatever is typed and whatever the storage and the random source
    do, a battle of a logged-in player returns normally, and the player
    object afterwards differs from the one before in one of three ways only:
    health worn down but still positive, with balance and inventory as they
    were; the reward of a win, 50 more balance and 50 more TAC; or the
    penalty of a defeat, balance lowered by [min 50 balance] and health back
    at 100.  So a battle never leaves a living player at health zero or
    below, and never makes a balance negative. *)
Theorem battle_outcome_bounded (w : World) (p : Player) (choices : list string) :
  current_player w = Some p →
  ∃ p' finished,
    result (Game.battle choices) w = Ok finished ∧
    current_player (exec (Game.battle choices) w) = Some p' ∧
    battle_outcome p p' ∧
    (0 < health p → 0 < health p') ∧
    (0 ≤ tac_balance p → 0 ≤ tac_balance p').
Proof.
  intros Hp. destruct w as [c cp o t e f]. simpl in Hp. subst cp.
  unfold result, exec. rewrite battle_eq.
  match goal with
  | |- context [Game.battle_loop choices ?h (Build_World ?c1 (Some ?p1) ?o1 ?t1 ?e1 ?f1)] =>
      destruct (battle_loop_outcome choices h c1 p1 o1 t1 e1 f1)
        as (rl & c2 & p2 & o2 & e2 & f2 & Hloop & Hout)
  end.
  rewrite Hloop.
  assert ((0 < health p → 0 < health p2) ∧ (0 ≤ tac_balance p → 0 ≤ tac_balance p2))
    as [Hh Hb].
  { destruct Hout as (_ & _ & _ & [(? & ? & ? & ?)|[(? & ? & ? & ?)|(? & ? & ?)]]);
      split; lia. }
  destruct rl as [finished|ex].
  - exists p2, finished. simpl.
    split; [reflexivity|]. split; [reflexivity|]. split; [exact Hout|].
    split; assumption.
  - exists p2, true. simpl.
    split; [reflexivity|]. split; [reflexivity|]. split; [exact Hout|].
    split; assumption.
Qed.

Lemma battle_outcome_bounded_witness :
  ∃ p' finished,
    result (Game.battle ["e"; "e"; "x"; "e"]) (world_of db0 alice [false; true]) =
      Ok finished ∧
    current_player (exec (Game.battle ["e"; "e"; "x"; "e"])
                         (world_of db0 alice [false; true])) = Some p' ∧
    battle_outcome alice p' ∧
    (0 < health alice → 0 < health p') ∧
    (0 ≤ tac_balance alice → 0 ≤ tac_balance p').
Proof.
  apply (battle_outcome_bounded (world_of db0 alice [false; true]) alice).
  reflexivity.
Defined.

Ltac printed_more :=
  eexists _, _; rewrite <- ?(assoc_L (++)); reflexivity.

Ltac printed_nothing :=
  eexists _, []; rewrite app_nil_r; reflexivity.

Lemma battle_loop_without_engage choices : ∀ enemy_health c cp o t e f,
  "e" ∉ choices →
  ∃ r lines,
    Game.battle_loop choices enemy_health (Build_World c cp o t e f) =
    (r, Build_World c cp (o ++ lines)%list t e f).
Proof.
  induction choices as [|choice rest IH]; intros eh c cp o t e f Hno.
  - cbn [Game.battle_loop]. destruct cp as [p|]; [|printed_nothing].
    unfold bind at 1. cbn [the_player current_player fst snd]. cbv beta iota.
    case_bool_decide; [|printed_nothing].
    run_print. run_print. printed_more.
  - apply not_elem_of_cons in Hno as [Hne Hno].
    cbn [Game.battle_loop]. destruct cp as [p|]; [|printed_nothing].
    unfold bind at 1. cbn [the_player current_player fst snd]. cbv beta iota.
    case_bool_decide; [|printed_nothing].
    run_print. run_print.
    rewrite bool_decide_eq_false_2 by congruence.
    case_bool_decide.
    + run_print. printed_more.
    + run_print.
      match goal with
      | |- context [Game.battle_loop rest ?h (Build_World ?c1 ?cp1 ?o1 ?t1 ?e1 ?f1)] =>
          destruct (IH h c1 cp1 o1 t1 e1 f1 Hno) as (rl & lines & Hloop)
      end.
      rewrite Hloop. printed_more.
Qed.

(** X10. A battle in which no engage command is given, retreat or not,
    costs nothing: the player object, the connection with its durable state,
    the random source and the storage are as before; only lines are printed.
    This holds in every world, logged in or not. *)
Theorem battle_without_engage (w : World) (choices : list string) :
  "e" ∉ choices →
  let w' := exec (Game.battle choices) w in
  current_player w' = current_player w ∧
  conn w' = conn w ∧
  entropy w' = entropy w ∧
  faults w' = faults w ∧
  ∃ lines, stdout w' = (stdout w ++ lines)%list.
Proof.
  intros Hno. destruct w as [c cp o t e f].
  unfold exec. rewrite battle_eq.
  match goal with
  | |- context [Game.battle_loop choices ?h (Build_World ?c1 ?cp1 ?o1 ?t1 ?e1 ?f1)] =>
      destruct (battle_loop_without_engage choices h c1 cp1 o1 t1 e1 f1 Hno)
        as (rl & o2 & Hloop)
  end.
  rewrite Hloop. destruct rl as [finished|ex]; simpl.
  - repeat split. eexists. rewrite <- ?(assoc_L (++)). reflexivity.
  - repeat split. eexists. rewrite <- ?(assoc_L (++)). reflexivity.
Qed.

Lemma battle_without_engage_witness :
  let w := world_of db0 alice [true] in
  let w' := exec (Game.battle ["x"; "look"; "r"; "attack"]) w in
  current_player w' = current_player w ∧
  conn w' = conn w ∧
  entropy w' = entropy w ∧
  faults w' = faults w ∧
  ∃ lines, stdout w' = (stdout w ++ lines)%list.
Proof.
  apply (battle_without_engage (world_of db0 alice [true])
           ["x"; "look"; "r"; "attack"]).
  repeat (apply not_elem_of_cons; split; [discriminate|]).
  apply not_elem_of_nil.
Defined.

(** ** More on purchases *)










(** ** More on the inventory *)



Lemma save_inventory_others c p o t e f :
  view c = durable c →
  let w' := exec Player.save_inventory (Build_World c (Some p) o t e f) in
  current_player w' = Some p ∧
  players (view (conn w')) = players (view c) ∧
  marketplace (view (conn w')) = marketplace (view c) ∧
  player_achievements (view (conn w')) = player_achievements (view c) ∧
  (∀ u i, u ≠ username p →
          stored_quantity (view (conn w')) u i = stored_quantity (view c) u i) ∧
  view (conn w') = durable (conn w').
Proof.
  intros Hclean. cbv zeta. unfold exec.
  destruct (save_inventory_any c p o t e f) as (f' & [Hok|(ex & Hex)]).
  - rewrite Hok. simpl. repeat split; try done.
    intros u i Hne. unfold stored_quantity. simpl.
    rewrite lookup_replace_inventory. by rewrite decide_False.
  - rewrite Hex. simpl. rewrite <- Hclean. repeat split; done.
Qed.

(** X16. The inventory operations of one player never touch anything else
    in the store.  Starting from a connection with nothing uncommitted,
    after [add_item] or [remove_item], whether the storage failed or not,
    the other players' inventory rows, the [players] table, the marketplace
    and the unlocks are as before, the username of the player is the same,
    and again nothing is left uncommitted. *)
Theorem inventory_ops_isolated (w : World) (p : Player) (op : inv_op) :
  current_player w = Some p →
  view (conn w) = durable (conn w) →
  let w' := exec (run_op op) w in
  (username <$> current_player w') = Some (username p) ∧
  players (view (conn w')) = players (view (conn w)) ∧
  marketplace (view (conn w')) = marketplace (view (conn w)) ∧
  player_achievements (view (conn w')) = player_achievements (view (conn w)) ∧
  (∀ u i, u ≠ username p →
          stored_quantity (view (conn w')) u i =
          stored_quantity (view (conn w)) u i) ∧
  view (conn w') = durable (conn w').
Proof.
  intros Hp Hclean. destruct w as [c cp o t e f]. simpl in Hp, Hclean. subst cp.
  cbv zeta. cbn [conn].
  assert (∀ m,
    let w' := exec Player.save_inventory
                (Build_World c (Some (set_inv m p)) o t e f) in
    (username <$> current_player w') = Some (username p) ∧
    players (view (conn w')) = players (view c) ∧
    marketplace (view (conn w')) = marketplace (view c) ∧
    player_achievements (view (conn w')) = player_achievements (view c) ∧
    (∀ u i, u ≠ username p →
            stored_quantity (view (conn w')) u i = stored_quantity (view c) u i) ∧
    view (conn w') = durable (conn w')) as Hsave.
  { intros m.
    destruct (save_inventory_others c (set_inv m p) o t e f Hclean)
      as (Hcp & Hrest).
    cbv zeta. split; [by rewrite Hcp | exact Hrest]. }
  destruct op as [item q|item q]; cbn [run_op].
  - unfold exec, Player.add_item. norm. apply Hsave.
  - unfold exec, bind.
    destruct (decide (q ≤ default 0 (inv p !! item))) as [Hle|Hgt].
    + destruct (inv p !! item) as [held|] eqn:E.
      * rewrite (remove_item_unfold c p o t e f item q held E Hle).
        pose proof (Hsave (if bool_decide (held - q = 0)
                           then delete item (inv p)
                           else <[item := held - q]> (inv p))) as Hok.
        cbv zeta in Hok. unfold exec in Hok. unfold bind.
        destruct (Player.save_inventory _) as [[[]|ex] w1]; exact Hok.
      * unfold Player.remove_item. norm. rewrite E. norm.
        rewrite bool_decide_eq_true_2 by done. norm. done.
    + unfold Player.remove_item. norm.
      rewrite bool_decide_eq_false_2 by done. norm. done.
Qed.

Lemma inventory_ops_isolated_witness :
  let w := world_of db_nova alice [false; true] in
  let w' := exec (run_op (AddItem "core" 2)) w in
  stored_quantity (view (conn w')) "nova" "core" = Some 3 ∧
  view (conn w') = durable (conn w').
Proof.
  pose proof (inventory_ops_isolated (world_of db_nova alice [false; true]) alice
                (AddItem "core" 2) eq_refl eq_refl) as H.
  cbv zeta in H. destruct H as (_ & _ & _ & _ & Hothers & Hclean).
  split; [|exact Hclean].
  etransitivity; [apply Hothers; discriminate | reflexivity].
Defined.

(** X17. What [remove_item] does when it cannot take the quantity.  Asked
    for more than is held (an item not held counts as zero) it answers
    [False] and changes nothing.  Asked for a quantity of zero or less of an
    item that is not held, it passes the test and raises [KeyError] at the
    subscript, again changing nothing. *)
Theorem remove_item_refusals (w : World) (p : Player) (item : string) (q : Z) :
  current_player w = Some p →
  (default 0 (inv p !! item) < q →
   run (Player.remove_item item q) w = (Ok false, w)) ∧
  (inv p !! item = None → q ≤ 0 →
   run (Player.remove_item item q) w = (Raise (KeyError item), w)).
Proof.
  intros Hp. destruct w as [c cp o t e f]. simpl in Hp. subst cp.
  unfold run, Player.remove_item. split.
  - intros Hlt. norm. rewrite bool_decide_eq_false_2 by lia. reflexivity.
  - intros Hnone Hle. norm. rewrite Hnone. norm.
    rewrite bool_decide_eq_true_2 by (simpl; lia). reflexivity.
Qed.

Lemma remove_item_refusals_witness :
  run (Player.remove_item "core" 5) (world_of db_nova nova [true]) =
    (Ok false, world_of db_nova nova [true]) ∧
  run (Player.remove_item "ore" 0) (world_of db_nova nova [true]) =
    (Raise (KeyError "ore"), world_of db_nova nova [true]).
Proof.
  destruct (remove_item_refusals (world_of db_nova nova [true]) nova "core" 5 eq_refl)
    as [Hmore _].
  destruct (remove_item_refusals (world_of db_nova nova [true]) nova "ore" 0 eq_refl)
    as [_ Hkey].
  split; [apply Hmore; vm_compute; reflexivity | apply Hkey; [reflexivity | lia]].
Defined.

(** ** Mining on any storage *)

(** X18. [explore] never raises, and it always credits the player object:
    whatever the storage does, a logged-in player comes out with a reward
    [r] between 10 and 50 added to the balance and to the quantity of TAC.
    When the storage fails the object is therefore ahead of the store. *)
Theorem explore_always_credits (w : World) (p : Player) :
  current_player w = Some p →
  ∃ r, 10 ≤ r ≤ 50 ∧
    result Game.explore w = Ok tt ∧
    current_player (exec Game.explore w) =
      Some (set_inv (<["TAC" := default 0 (inv p !! "TAC") + r]> (inv p))
              (set_tac_balance (tac_balance p + r) p)).
Proof.
  intros Hp. destruct w as [c cp o t e f]. simpl in Hp. subst cp.
  destruct (randint_range 10 50 c (Some p)
              (o ++ [(nl ++ "Accessing quantum compute node...")%string])%list
              t e f)
    as (r & e' & Hr & Hrange); [lia|].
  exists r. split; [exact Hrange|].
  unfold exec, result, Game.explore, try_except. norm.
  rewrite Hr. norm.
  match goal with
  | |- context [Player.add_item ?i ?q (Build_World ?c1 (Some ?p1) ?o1 ?t1 ?e1 ?f1)] =>
      destruct (add_item_keeps c1 p1 o1 t1 e1 f1 i q) as (ra & c2 & f2 & Ha)
  end.
  rewrite Ha. destruct ra as [[]|ex]; [|unfold print; norm; done].
  norm.
  match goal with
  | |- context [Player.save (Build_World ?c1 (Some ?p1) ?o1 ?t1 ?e1 ?f1)] =>
      destruct (save_keeps c1 p1 o1 t1 e1 f1) as (c3 & o3 & f3 & Hs)
  end.
  rewrite Hs. norm. rewrite bool_decide_eq_true_2 by lia.
  match goal with
  | |- context [Game.check_achievements [?aid] (Build_World ?c1 (Some ?p1) ?o1 ?t1 ?e1 ?f1)] =>
      destruct (check_achievements_keeps c1 p1 o1 t1 e1 f1 aid)
        as (rc & c4 & f4 & Hc)
  end.
  rewrite Hc. destruct rc as [[]|ex]; [done|unfold print; norm; done].
Qed.

Lemma explore_always_credits_witness :
  ∃ r, 10 ≤ r ≤ 50 ∧
    result Game.explore (world_of db0 alice [true]) = Ok tt ∧
    (tac_balance <$> current_player (exec Game.explore (world_of db0 alice [true])))
      = Some (100 + r).
Proof.
  destruct (explore_always_credits (world_of db0 alice [true]) alice eq_refl)
    as (r & Hrange & Hok & Hcp).
  exists r. split; [exact Hrange|]. split; [exact Hok|].
  rewrite Hcp. reflexivity.
Defined.

(** ** A trade from listing to logout *)



